(** * Feature derivation pipeline of [data_pipeline.py]

    A shallow embedding of [CryptoDataPipeline.process_data] and
    [CryptoDataPipeline.run_pipeline], together with the pandas operations
    they call, and the properties of the derived columns.

    Numbers.  The source computes in binary floating point.  The embedding
    keeps the special values of that arithmetic (the missing marker NaN and
    the two infinities) and computes exactly, over the rationals, on finite
    values; input prices, volumes and market caps are finite numbers.  A
    float column of pandas has one marker for "null", NaN, and so has [val].

    The properties of the derived columns are about which cells enter a
    computation and by which formula; the rounding and the overflow of
    finite values are outside the embedding.

    Library functions.  [sort_values] (whose default algorithm, quicksort,
    is documented as not stable) is any function returning a date-sorted
    permutation of its argument; the square root taken by [std] is any
    function on the rationals.  To run the model, [stable_sort] and
    [tie_reversing_sort] are two such sorts, [quicksort_by_date] is the
    quicksort of numpy on the dates, and [Qsqrt6] a square root to six
    decimal places. *)

From Stdlib Require Import String List ZArith QArith Bool Arith Lia.
From Stdlib Require Import Permutation Sorted.
Import ListNotations.

Local Open Scope nat_scope.

(** ** The data model *)

(** One row of the frame built by [fetch_historical_data]:
    columns [date, coin, price, volume, market_cap]. *)
Record Row := mkRow {
  date : Z;            (* [pd.to_datetime(timestamp, unit='ms')] *)
  coin : string;
  price : Q;
  volume : Q;
  market_cap : Q
}.

(** A cell of a derived float column. *)
Inductive val :=
| Fin (q : Q)
| PInf
| NInf
| NaN.

(** One row of the frame returned by [process_data]. *)
Record FeatureRow := mkFeatureRow {
  base : Row;
  daily_return : val;
  ma_7 : val;
  ma_30 : val;
  volatility_30d : val;
  cumulative_return : val
}.

Definition key (r : Row) : Z * string := (date r, coin r).

Definition key_eqb (a b : Z * string) : bool :=
  Z.eqb (fst a) (fst b) && String.eqb (snd a) (snd b).

(** ** Arithmetic on cells *)

Definition isna (v : val) : bool :=
  match v with NaN => true | _ => false end.

Definition is_finite (v : val) : bool :=
  match v with Fin _ => true | _ => false end.

(** Same cell, finite values compared as rationals. *)
Definition veq (a b : val) : Prop :=
  match a, b with
  | Fin x, Fin y => (x == y)%Q
  | PInf, PInf | NInf, NInf | NaN, NaN => True
  | _, _ => False
  end.

Definition veqb (a b : val) : bool :=
  match a, b with
  | Fin x, Fin y => Qeq_bool x y
  | PInf, PInf | NInf, NInf | NaN, NaN => true
  | _, _ => false
  end.

Definition vneg (v : val) : val :=
  match v with
  | Fin q => Fin (- q)%Q
  | PInf => NInf
  | NInf => PInf
  | NaN => NaN
  end.

Definition vadd (a b : val) : val :=
  match a, b with
  | NaN, _ | _, NaN => NaN
  | Fin x, Fin y => Fin (x + y)%Q
  | PInf, NInf | NInf, PInf => NaN
  | PInf, _ | _, PInf => PInf
  | NInf, _ | _, NInf => NInf
  end.

Definition vsub (a b : val) : val := vadd a (vneg b).

(** An infinity of sign [pos] times, or a finite [q] over, a zero:
    the sign of [q] decides, and [0] gives NaN. *)
Definition signed_inf (pos : bool) (q : Q) : val :=
  match (q ?= 0)%Q with
  | Eq => NaN
  | Gt => if pos then PInf else NInf
  | Lt => if pos then NInf else PInf
  end.

Definition vmul (a b : val) : val :=
  match a, b with
  | NaN, _ | _, NaN => NaN
  | Fin x, Fin y => Fin (x * y)%Q
  | Fin x, PInf | PInf, Fin x => signed_inf true x
  | Fin x, NInf | NInf, Fin x => signed_inf false x
  | PInf, PInf | NInf, NInf => PInf
  | PInf, NInf | NInf, PInf => NInf
  end.

Definition vdiv (a b : val) : val :=
  match a, b with
  | NaN, _ | _, NaN => NaN
  | Fin x, Fin y => if Qeq_bool y 0 then signed_inf true x else Fin (x / y)%Q
  | Fin _, PInf | Fin _, NInf => Fin 0
  | PInf, Fin y => match (y ?= 0)%Q with Lt => NInf | _ => PInf end
  | NInf, Fin y => match (y ?= 0)%Q with Lt => PInf | _ => NInf end
  | _, _ => NaN
  end.

Definition Qsum (xs : list Q) : Q := fold_right Qplus 0%Q xs.

Definition Qnat (n : nat) : Q := inject_Z (Z.of_nat n).

(** ** List plumbing *)

Fixpoint zip_with {A B C} (f : A -> B -> C) (xs : list A) (ys : list B) : list C :=
  match xs, ys with
  | x :: xs', y :: ys' => f x y :: zip_with f xs' ys'
  | _, _ => []
  end.

(** ** The pandas operations that [process_data] calls

    Each operation is given on one column, or one group of a column, as a
    list of cells.  Defaults are those of the calls in the source:
    [keep='first'], [skipna=True], [ddof=1], forward fill in
    [pct_change]. *)

Module Pandas.

(** *** [Series.ffill], [Series.shift], [pct_change] *)

Fixpoint ffill_from (last : val) (xs : list val) : list val :=
  match xs with
  | [] => []
  | x :: rest =>
      let y := if isna x then last else x in
      y :: ffill_from y rest
  end.

Definition ffill (xs : list val) : list val := ffill_from NaN xs.

(** [shift(1)]: every value moves one row down, the first row is NaN. *)
Definition shift (xs : list val) : list val :=
  firstn (length xs) (NaN :: xs).

(** [pct_change()] on one group: [(filled / shifted) - 1], where [filled]
    is the forward-filled group. *)
Definition pct_change (xs : list val) : list val :=
  let filled := ffill xs in
  zip_with (fun a b => vsub (vdiv a b) (Fin 1)) filled (shift filled).

(** *** [rolling(window, min_periods)] and its aggregations *)

(** Rows [start, stop) of the window ending at row [i]:
    [stop = i + 1], [start = max(0, stop - w)]. *)
Definition window {X} (w i : nat) (xs : list X) : list X :=
  let stop := S i in
  let start := stop - w in
  firstn (stop - start) (skipn start xs).

(** Rolling aggregations first turn infinities into NaN: the window
    routines see an infinite cell as a missing one
    ([Rolling._prep_values], "Convert inf to nan for C funcs"). *)
Definition prep_values (xs : list val) : list val :=
  map (fun v => match v with PInf | NInf => NaN | _ => v end) xs.

(** The observations of a window: its cells that are not NaN (after
    [prep_values], its finite cells). *)
Definition observations (win : list val) : list Q :=
  flat_map (fun v => match v with Fin q => [q] | _ => [] end) win.

Definition Qmean (obs : list Q) : Q := (Qsum obs / Qnat (length obs))%Q.

(** Sum of squared deviations from the mean. *)
Definition ssqdm (obs : list Q) : Q :=
  Qsum (map (fun x => ((x - Qmean obs) * (x - Qmean obs))%Q) obs).

Definition roll_mean (minp : nat) (win : list val) : val :=
  let obs := observations win in
  let nobs := length obs in
  if (minp <=? nobs) && (0 <? nobs) then Fin (Qmean obs) else NaN.

Definition roll_var (minp ddof : nat) (win : list val) : val :=
  let obs := observations win in
  let nobs := length obs in
  if (minp <=? nobs) && (ddof <? nobs)
  then Fin (ssqdm obs / Qnat (nobs - ddof))%Q
  else NaN.

(** [zsqrt]: square root, with negative arguments sent to 0. *)
Definition zsqrt (sqrt : Q -> Q) (v : val) : val :=
  match v with
  | Fin q => if Qle_bool 0 q then Fin (sqrt q) else Fin 0
  | PInf => PInf
  | NInf => Fin 0
  | NaN => NaN
  end.

Definition rolling (w : nat) (agg : list val -> val) (xs : list val) : list val :=
  let values := prep_values xs in
  map (fun i => agg (window w i values)) (seq 0 (length xs)).

(** [x.rolling(window=w, min_periods=minp).mean()] *)
Definition rolling_mean (w minp : nat) (xs : list val) : list val :=
  rolling w (roll_mean minp) xs.

(** [x.rolling(window=w, min_periods=minp).std()], with the default [ddof=1] *)
Definition rolling_std (sqrt : Q -> Q) (w minp : nat) (xs : list val) : list val :=
  rolling w (fun win => zsqrt sqrt (roll_var minp 1 win)) xs.

(** *** [Series.cumprod] (default [skipna=True]) *)

(** [np.cumprod]: the running product, from the first cell on. *)
Fixpoint np_cumprod_from (acc : val) (xs : list val) : list val :=
  match xs with
  | [] => []
  | x :: rest => let a := vmul acc x in a :: np_cumprod_from a rest
  end.

Definition np_cumprod (xs : list val) : list val :=
  match xs with
  | [] => []
  | x :: rest => x :: np_cumprod_from x rest
  end.

(** NaN cells count as 1 in the running product and are NaN in the result. *)
Definition cumprod (xs : list val) : list val :=
  let vals := map (fun v => if isna v then Fin 1 else v) xs in
  zip_with (fun x r => if isna x then NaN else r) xs (np_cumprod vals).

(** *** [groupby(key)[col].transform(f)] *)

(** The cells of [col] on the rows whose key is [k], in row order. *)
Definition group {X} (k : string) (keys : list string) (col : list X) : list X :=
  map snd (filter (fun p => String.eqb (fst p) k) (combine keys col)).

(** Number of rows of a group. *)
Definition occurrences (k : string) (keys : list string) : nat :=
  length (filter (fun k' => String.eqb k' k) keys).

(** Put per-group results back on the rows they came from: row by row,
    take the next unused cell of the result of the row's group. *)
Fixpoint scatter {Y} (d : Y) (keys : list string) (res : string -> list Y) : list Y :=
  match keys with
  | [] => []
  | k :: ks =>
      hd d (res k)
      :: scatter d ks (fun k' => if String.eqb k' k then tl (res k') else res k')
  end.

Definition transform {X} (f : list X -> list val) (keys : list string) (col : list X)
  : list val :=
  scatter NaN keys (fun k => f (group k keys col)).

(** *** [drop_duplicates(subset=['date', 'coin'])] (default [keep='first']) *)

(** One pass down the frame: a row stays when its [(date, coin)] key has
    not been seen on an earlier row. *)
Fixpoint drop_duplicates_from (seen : list (Z * string)) (df : list Row) : list Row :=
  match df with
  | [] => []
  | r :: rest =>
      if existsb (key_eqb (key r)) seen
      then drop_duplicates_from seen rest
      else r :: drop_duplicates_from (key r :: seen) rest
  end.

Definition drop_duplicates (df : list Row) : list Row := drop_duplicates_from [] df.

(** The rows whose key is not [k]. *)
Definition other_key (k : Z * string) (r : Row) : bool := negb (key_eqb (key r) k).

End Pandas.

Import Pandas.

(** ** [process_data] *)

(** The frame with its five new columns, row by row.  After
    [reset_index(drop=True)] the index is the row position, so each
    assigned column lines up with the frame by position. *)
Definition assemble (df : list Row) (dr m7 m30 vol cum : list val) : list FeatureRow :=
  map (fun t =>
         match t with
         | (r, (a, (b, (c, (d, e))))) => mkFeatureRow r a b c d e
         end)
      (combine df (combine dr (combine m7 (combine m30 (combine vol cum))))).

(** [sort_values] stands for [df.sort_values('date')], [sqrt] for the
    square root inside [std()]. *)
Definition process_data (sort_values : list Row -> list Row) (sqrt : Q -> Q)
    (df : list Row) : list FeatureRow :=
  (* Remove duplicates *)
  let df := drop_duplicates df in
  (* Sort by date *)
  let df := sort_values df in
  let coins := map coin df in
  let prices := map (fun r => Fin (price r)) df in
  (* Calculate daily returns *)
  let daily_return := transform pct_change coins prices in
  (* Calculate moving averages *)
  let ma_7 := transform (rolling_mean 7 1) coins prices in
  let ma_30 := transform (rolling_mean 30 1) coins prices in
  (* Calculate volatility (30-day rolling standard deviation of returns) *)
  let volatility_30d := transform (rolling_std sqrt 30 1) coins daily_return in
  (* Calculate cumulative returns *)
  let cumulative_return :=
    transform (fun x => cumprod (map (vadd (Fin 1)) x)) coins daily_return in
  assemble df daily_return ma_7 ma_30 volatility_30d cumulative_return.

(** The frame after the first two steps of [process_data]. *)
Definition sorted_frame (sort_values : list Row -> list Row) (df : list Row) : list Row :=
  sort_values (drop_duplicates df).

(** The rows of one asset in a frame, in frame order. *)
Definition asset_rows (c : string) (out : list FeatureRow) : list FeatureRow :=
  filter (fun fr => String.eqb (coin (base fr)) c) out.

Definition coin_rows (c : string) (df : list Row) : list Row :=
  filter (fun r => String.eqb (coin r) c) df.

(** ** Two sorts by date, to run the model *)

(** Insertion into a date-sorted frame: [r] goes in front of the first row
    [x] for which [before (date r) (date x)] holds. *)
Fixpoint insert_by_date (before : Z -> Z -> bool) (r : Row) (l : list Row) : list Row :=
  match l with
  | [] => [r]
  | x :: l' =>
      if before (date r) (date x) then r :: l else x :: insert_by_date before r l'
  end.

Definition insertion_sort (before : Z -> Z -> bool) (df : list Row) : list Row :=
  fold_right (insert_by_date before) [] df.

(** Rows of equal date keep their input order. *)
Definition stable_sort : list Row -> list Row := insertion_sort Z.leb.

(** Rows of equal date come out in reverse input order. *)
Definition tie_reversing_sort : list Row -> list Row := insertion_sort Z.ltb.

(** A rational approximation of the square root, to six decimal places. *)
Definition Qsqrt6 (q : Q) : Q :=
  Qmake (Z.sqrt (Qnum q * Zpos (Qden q) * 10 ^ 12)) (Qden q * 1000000).

(** ** The default algorithm of [sort_values]

    [df.sort_values('date')] takes the rows at the positions returned by
    [numpy.argsort] of the dates, with [kind='quicksort'].  For datetime
    keys that is [aquicksort] of numpy (npysort/quicksort.cpp), transcribed
    here: quicksort on the array of positions [tosort], the pivot being the
    median of the first, middle and last key, ranges of at most 17
    positions sorted by insertion, and heapsort taking over once the
    partitions nest deeper than twice the binary logarithm of the length.
    The loops of the C code run on fuel; [None] stands for the switch to
    heapsort, which is not transcribed. *)
Module Numpy.





Section Argsort.

Variable v : list Z.











End Argsort.

End Numpy.



(** ** [fetch_historical_data] and [run_pipeline] *)

(** What the market-data API does with one request: it answers with a
    JSON object that holds the three series of the market chart, or with
    one that lacks some of them, or the request fails with a
    [requests.exceptions.RequestException] (no connection, a non-2xx
    status, a body that is not JSON). *)
Inductive response :=
| Payload (prices total_volumes market_caps : list (Z * Q))
| Incomplete
| RequestException.

(** A call either returns or lets an exception escape. *)
Inductive outcome (A : Type) :=
| Returned (a : A)
| Raised.

Arguments Returned {A} a.
Arguments Raised {A}.

(** The three series of a payload have one length. *)
Definition same_length (prices total_volumes market_caps : list (Z * Q)) : bool :=
  (length total_volumes =? length prices) && (length market_caps =? length prices).

(** Timestamps are milliseconds since the epoch; [pd.to_datetime(...,
    unit='ms')] turns them into nanoseconds held in 64 bits, and raises
    [OutOfBoundsDatetime] for a timestamp that does not fit:
    9223372036854 ms is the last that does.  (The integer [-2^63], which
    pandas reads as the missing date, is out of range here like the
    integers around it; no property below is about it.) *)
Definition datetime_bound : Z := 9223372036854.

Definition timestamp_in_range (t : Z) : bool :=
  ((- datetime_bound <=? t) && (t <=? datetime_bound))%Z.

Definition timestamps_in_range (prices : list (Z * Q)) : bool :=
  forallb (fun e => timestamp_in_range (fst e)) prices.

(** The rows of a payload: timestamp and price from [prices], the values
    of the other two series beside them. *)
Definition payload_rows (coin_id : string)
    (prices total_volumes market_caps : list (Z * Q)) : list Row :=
  zip_with
    (fun pv m => mkRow (fst (fst pv)) coin_id (snd (fst pv)) (snd (snd pv)) (snd m))
    (combine prices total_volumes) market_caps.

(** [pd.DataFrame({...})] of the four columns, then [date] and [coin].
    pandas raises [ValueError] when the columns differ in length and
    [OutOfBoundsDatetime] when a timestamp is out of range;
    [fetch_historical_data] catches neither. *)
Definition to_frame (coin_id : string) (prices total_volumes market_caps : list (Z * Q))
  : outcome (list Row) :=
  if same_length prices total_volumes market_caps
  then if timestamps_in_range prices
       then Returned (payload_rows coin_id prices total_volumes market_caps)
       else Raised
  else Raised.

(** [api] is what the API does with the request of this call.  [None] is
    the value the [except RequestException] branch returns; the
    [KeyError] of [data['prices']], [data['total_volumes']] or
    [data['market_caps']] on an object that lacks the series is not
    caught. *)
Definition fetch_historical_data (api : string -> response) (coin_id : string)
  : outcome (option (list Row)) :=
  match api coin_id with
  | RequestException => Returned None
  | Incomplete => Raised
  | Payload prices total_volumes market_caps =>
      match to_frame coin_id prices total_volumes market_caps with
      | Returned df => Returned (Some df)
      | Raised => Raised
      end
  end.

(** The [for coin in self.coins] loop, [all_data] being the accumulator.
    Every pass sends a request of its own: [api n] is what the API does
    with the [n]-th request of the run, counted from 0. *)
Fixpoint fetch_all (api : nat -> string -> response) (n : nat) (coins : list string)
    (all_data : list (list Row)) : outcome (list (list Row)) :=
  match coins with
  | [] => Returned all_data
  | c :: rest =>
      match fetch_historical_data (api n) c with
      | Raised => Raised
      | Returned None => fetch_all api (S n) rest all_data
      | Returned (Some df) => fetch_all api (S n) rest (all_data ++ [df])
      end
  end.

(** [run_pipeline]; printing, sleeping and saving the CSV file leave the
    returned value as it is and are not modelled. *)
Definition run_pipeline (sort_values : list Row -> list Row) (sqrt : Q -> Q)
    (api : nat -> string -> response) (coins : list string)
  : outcome (option (list FeatureRow)) :=
  match fetch_all api 0 coins [] with
  | Raised => Raised
  | Returned [] => Returned None
  | Returned all_data =>
      Returned (Some (process_data sort_values sqrt (concat all_data)))
  end.

(** ** Vocabulary of the properties *)

(** The [n]-th request of a run, counted from 0, asks for asset [c]. *)
Definition requested (coins : list string) (n : nat) (c : string) : Prop :=
  nth_error coins n = Some c.

(** The fetch of an asset fails: the request raises the exception that
    [fetch_historical_data] catches. *)
Definition fetch_fails (api : string -> response) (c : string) : Prop :=
  api c = RequestException.

(** The API answers with three series of one length. *)
Definition fetch_succeeds (api : string -> response) (c : string) : Prop :=
  match api c with
  | Payload p v m => same_length p v m = true
  | Incomplete => False
  | RequestException => False
  end.

(** The fetch of an asset gives a frame: the API answers with three
    series of one length, and every timestamp is in range. *)
Definition fetch_returns_frame (api : string -> response) (c : string) : Prop :=
  match api c with
  | Payload p v m => same_length p v m = true /\ timestamps_in_range p = true
  | Incomplete => False
  | RequestException => False
  end.

(** A timestamp that [pd.to_datetime] raises on. *)
Definition timestamp_out_of_range (t : Z) : Prop :=
  timestamp_in_range t = false /\ t <> (- 2 ^ 63)%Z.

(** An answer that is no request failure and gives no frame either: it
    lacks a series, or its series differ in length, or a timestamp of its
    price series is out of range. *)
Definition answer_malformed (r : response) : Prop :=
  match r with
  | Payload p v m =>
      same_length p v m = false \/
      exists e, In e p /\ timestamp_out_of_range (fst e)
  | Incomplete => True
  | RequestException => False
  end.

(** The frames of the requests that gave a payload, in the order of the
    requests, the first of which is the [n]-th of the run. *)
Fixpoint fetched_frames_from (api : nat -> string -> response) (n : nat)
    (coins : list string) : list (list Row) :=
  match coins with
  | [] => []
  | c :: rest =>
      match api n c with
      | Payload p v m => [payload_rows c p v m]
      | Incomplete => []
      | RequestException => []
      end ++ fetched_frames_from api (S n) rest
  end.

Definition fetched_frames (api : nat -> string -> response) (coins : list string)
  : list (list Row) :=
  fetched_frames_from api 0 coins.

(** The API as it answers the requests for asset [c], every request for
    another asset failing. *)
Definition only_asset (c : string) (api : nat -> string -> response)
  : nat -> string -> response :=
  fun n c' => if String.eqb c' c then api n c' else RequestException.

(** Rows [lo..hi] of a column, both ends included. *)
Definition rows_between {X} (d : X) (lo hi : nat) (xs : list X) : list X :=
  map (fun j => nth j xs d) (seq lo (S hi - lo)).

(** The finite cells of a list. *)
Definition finite_values (vs : list val) : list Q := observations vs.

(** Sample variance, with the N-1 denominator. *)
Definition sample_variance (obs : list Q) : Q :=
  (ssqdm obs / Qnat (length obs - 1))%Q.

(** Sample standard deviation of the observations of a window; null under
    two observations. *)
Definition sample_std (sqrt : Q -> Q) (obs : list Q) : val :=
  if length obs <? 2 then NaN else Fin (sqrt (sample_variance obs)).

(** The rows of asset [c] in the frame returned by [process_data]. *)
Definition asset_frame (sort_values : list Row -> list Row) (sqrt : Q -> Q)
    (df : list Row) (c : string) : list FeatureRow :=
  asset_rows c (process_data sort_values sqrt df).

(** The price column of a list of output rows. *)
Definition prices_of (g : list FeatureRow) : list Q :=
  map (fun r => price (base r)) g.

(** The [daily_return] cells of rows [max(0, i-29) .. i]. *)
Definition trailing_returns (g : list FeatureRow) (i : nat) : list val :=
  rows_between NaN (i - 29) i (map daily_return g).

(** Factor of one row in the cumulative return: [1 + daily_return], and 1
    for a null return. *)
Definition growth_factor (r : val) : val :=
  if isna r then Fin 1 else vadd (Fin 1) r.

(** Product of the factors of rows [0..i], multiplied from the first on. *)
Definition growth_upto (rs : list val) (i : nat) : val :=
  match map growth_factor (firstn (S i) rs) with
  | [] => Fin 1
  | f :: fs => fold_left vmul fs f
  end.

(** First row of a frame with a given [(date, coin)] key. *)
Definition first_with_key (k : Z * string) (df : list Row) : option Row :=
  find (fun r => key_eqb (key r) k) df.

(** A sort that [process_data] may be run with: its result is a
    permutation of its argument, in non-decreasing date order. *)
Definition date_le (a b : Row) : Prop := (date a <= date b)%Z.

Definition sorts_by_date (sort_values : list Row -> list Row) : Prop :=
  forall df, Permutation df (sort_values df) /\ Sorted date_le (sort_values df).


(** Standard deviation as the words of the specification have it: of the
    cells of the window that are not null, in the arithmetic of cells,
    with the N-1 denominator; null under two such cells. *)
Definition vsum (vs : list val) : val := fold_right vadd (Fin 0) vs.

Definition spec_sample_std (sqrt : Q -> Q) (win : list val) : val :=
  let xs := filter (fun v => negb (isna v)) win in
  let n := length xs in
  if n <? 2 then NaN
  else
    let mean := vdiv (vsum xs) (Fin (Qnat n)) in
    let dev2 := map (fun x => vmul (vsub x mean) (vsub x mean)) xs in
    zsqrt sqrt (vdiv (vsum dev2) (Fin (Qnat (n - 1)))).


(** ** Sample frames *)

Definition row (d : Z) (c : string) (p : Q) : Row := mkRow d c p 0 0.

Definition one_asset (c : string) (ps : list Q) : list Row :=
  zip_with (fun i p => row (Z.of_nat i) c p) (seq 0 (length ps)) ps.

(** Two assets out of date order, with a repeated [(date, coin)] key and a
    zero price. *)
Definition sample_frame : list Row :=
  [ row 3 "bitcoin" 121; row 1 "bitcoin" 100; row 1 "ethereum" 10;
    row 2 "bitcoin" 110; row 2 "ethereum" 0; row 1 "bitcoin" 999;
    row 3 "ethereum" 5; row 4 "ethereum" 6 ]%string.

(** Two rows of one key and different prices. *)
Definition duplicate_pair : list Row :=
  [ row 1 "bitcoin" 100; row 1 "bitcoin" 200 ]%string.



(** An API that answers for bitcoin and fails for every other asset. *)
Definition sample_api (c : string) : response :=
  if String.eqb c "bitcoin"
  then Payload [(1%Z, 100%Q); (2%Z, 110%Q)] [(1%Z, 5%Q); (2%Z, 6%Q)]
               [(1%Z, 7%Q); (2%Z, 8%Q)]
  else RequestException.

(** An API that fails for every asset. *)
Definition failing_api (c : string) : response := RequestException.

(** An API whose answer for bitcoin has series of different lengths, and
    whose answer for every other asset is well formed. *)
Definition misaligned_api (c : string) : response :=
  if String.eqb c "bitcoin"
  then Payload [(1%Z, 100%Q); (2%Z, 110%Q)] [(1%Z, 5%Q)] [(1%Z, 7%Q); (2%Z, 8%Q)]
  else Payload [(1%Z, 10%Q); (2%Z, 11%Q)] [(1%Z, 3%Q); (2%Z, 4%Q)]
               [(1%Z, 1%Q); (2%Z, 2%Q)].

(** An API whose answer for bitcoin lacks a series, and whose answer for
    every other asset is well formed. *)
Definition incomplete_api (c : string) : response :=
  if String.eqb c "bitcoin"
  then Incomplete
  else Payload [(1%Z, 10%Q); (2%Z, 11%Q)] [(1%Z, 3%Q); (2%Z, 4%Q)]
               [(1%Z, 1%Q); (2%Z, 2%Q)].

(** Default of [nth] on output rows. *)
Definition no_row : FeatureRow := mkFeatureRow (row 0 "none" 0) NaN NaN NaN NaN NaN.

(** The rows of each asset of [sample_frame] in the returned frame. *)
Definition sample_bitcoin : list FeatureRow :=
  asset_frame stable_sort Qsqrt6 sample_frame "bitcoin".

Definition sample_ethereum : list FeatureRow :=
  asset_frame stable_sort Qsqrt6 sample_frame "ethereum".

(** The returned rows of one asset with the given prices on successive
    dates. *)
Definition run_one_asset (ps : list Q) : list FeatureRow :=
  asset_frame stable_sort Qsqrt6 (one_asset "bitcoin" ps) "bitcoin".

(** ** Vocabulary of the further properties *)

(** A row whose key occurs in a frame. *)
Definition key_occurs (df : list Row) (r : Row) : Prop := In (key r) (map key df).

(** The rows of [sample_frame] regrouped by asset, ethereum first. *)
Definition sample_frame_by_asset : list Row :=
  coin_rows "ethereum" sample_frame ++ coin_rows "bitcoin" sample_frame.

(** [sample_frame] without the row that repeats a key. *)
Definition distinct_frame : list Row :=
  [ row 3 "bitcoin" 121; row 1 "bitcoin" 100; row 1 "ethereum" 10;
    row 2 "bitcoin" 110; row 2 "ethereum" 0; row 3 "ethereum" 5;
    row 4 "ethereum" 6 ]%string.

(** A bitcoin row later than every bitcoin row of [sample_frame]. *)
Definition newer_row : Row := row 5 "bitcoin" 130.

(** An API that answers for bitcoin and for ethereum, with the same
    timestamps, and fails for every other asset. *)
Definition two_asset_api (c : string) : response :=
  if String.eqb c "bitcoin"
  then Payload [(1%Z, 100%Q); (2%Z, 110%Q)] [(1%Z, 5%Q); (2%Z, 6%Q)]
               [(1%Z, 7%Q); (2%Z, 8%Q)]
  else if String.eqb c "ethereum"
  then Payload [(1%Z, 10%Q); (2%Z, 11%Q)] [(1%Z, 3%Q); (2%Z, 4%Q)]
               [(1%Z, 1%Q); (2%Z, 2%Q)]
  else RequestException.

(** The frame [run_pipeline] returns for bitcoin, ethereum and an asset
    the API fails for. *)
Definition two_asset_table : list FeatureRow :=
  process_data stable_sort Qsqrt6
    (concat (fetched_frames (fun _ => two_asset_api)
               ["bitcoin"; "ethereum"; "dogecoin"]%string)).

(** An API asked for ethereum more than once in a run: the answer to the
    first request of the run has the timestamps 1 and 2, any later answer
    the timestamps 2 and 3. *)
Definition growing_api (n : nat) (c : string) : response :=
  if String.eqb c "ethereum"
  then if n =? 0
       then Payload [(1%Z, 10%Q); (2%Z, 11%Q)] [(1%Z, 3%Q); (2%Z, 4%Q)]
                    [(1%Z, 1%Q); (2%Z, 2%Q)]
       else Payload [(2%Z, 11%Q); (3%Z, 12%Q)] [(2%Z, 4%Q); (3%Z, 5%Q)]
                    [(2%Z, 2%Q); (3%Z, 3%Q)]
  else two_asset_api c.

(** The frame [run_pipeline] returns for ethereum, bitcoin and ethereum
    again. *)
Definition growing_table : list FeatureRow :=
  process_data stable_sort Qsqrt6
    (concat (fetched_frames growing_api ["ethereum"; "bitcoin"; "ethereum"]%string)).

(** * Properties *)

(** ** Lists, groups and [transform] *)

Lemma length_zip_with {A B C} (f : A -> B -> C) xs ys :
  length (zip_with f xs ys) = Nat.min (length xs) (length ys).
Proof.
  revert ys; induction xs as [|x xs IH]; intros [|y ys]; simpl; auto.
Qed.

Lemma map_fst_combine {A B} (l : list A) (l' : list B) :
  length l <= length l' -> map fst (combine l l') = l.
Proof.
  revert l'; induction l as [|x l IH]; intros [|y l'] H; simpl in *;
    try reflexivity; try lia.
  f_equal; apply IH; lia.
Qed.

Lemma map_snd_combine {A B} (l : list A) (l' : list B) :
  length l' <= length l -> map snd (combine l l') = l'.
Proof.
  revert l'; induction l as [|x l IH]; intros [|y l'] H; simpl in *;
    try reflexivity; try lia.
  f_equal; apply IH; lia.
Qed.

Lemma group_map {A X} (kf : A -> string) (g : A -> X) k (l : list A) :
  group k (map kf l) (map g l) = map g (filter (fun x => String.eqb (kf x) k) l).
Proof.
  unfold group; induction l as [|x l IH]; simpl; [reflexivity|].
  destruct (String.eqb (kf x) k); simpl; now rewrite IH.
Qed.

Lemma length_group {X} k keys (col : list X) :
  length keys <= length col -> length (group k keys col) = occurrences k keys.
Proof.
  unfold group, occurrences; rewrite length_map.
  revert col; induction keys as [|k0 ks IH]; intros [|x col] H; simpl in *;
    try reflexivity; try lia.
  destruct (String.eqb k0 k); simpl; rewrite IH; auto; lia.
Qed.

Lemma length_scatter {Y} (d : Y) keys res : length (scatter d keys res) = length keys.
Proof.
  revert res; induction keys as [|k ks IH]; intros res; simpl; auto.
Qed.

(** Reading a group off a scattered column gives back the group's result. *)
Lemma group_scatter {Y} (d : Y) k keys res :
  length (res k) = occurrences k keys ->
  group k keys (scatter d keys res) = res k.
Proof.
  revert res; induction keys as [|k0 ks IH]; intros res H.
  - destruct (res k); [reflexivity|discriminate].
  - unfold group in *; unfold occurrences in *; simpl in *.
    destruct (String.eqb k0 k) eqn:E.
    + apply String.eqb_eq in E; subst k0; simpl.
      rewrite IH; rewrite String.eqb_refl.
      * destruct (res k); [discriminate|reflexivity].
      * destruct (res k); simpl in *; [discriminate|lia].
    + rewrite IH; rewrite String.eqb_sym, E; auto.
Qed.

Lemma group_transform {X} (f : list X -> list val) k keys (col : list X) :
  length keys <= length col ->
  (forall xs, length (f xs) = length xs) ->
  group k keys (transform f keys col) = f (group k keys col).
Proof.
  intros Hlen Hf; unfold transform.
  apply (group_scatter NaN k keys (fun k => f (group k keys col))).
  rewrite Hf; now apply length_group.
Qed.

Lemma length_transform {X} (f : list X -> list val) keys (col : list X) :
  length (transform f keys col) = length keys.
Proof. apply length_scatter. Qed.

Lemma nth_map_nth_error {A B} (f : A -> B) l i x d :
  nth_error l i = Some x -> nth i (map f l) d = f x.
Proof.
  intros H; apply nth_error_nth; now apply map_nth_error.
Qed.

Lemma nth_error_lt {A} (l : list A) i x : nth_error l i = Some x -> i < length l.
Proof. intros H; apply nth_error_Some; congruence. Qed.

Lemma firstn_S_nth {A} (d : A) l i :
  i < length l -> firstn (S i) l = firstn i l ++ [nth i l d].
Proof.
  revert i; induction l as [|x l IH]; intros [|i] H; simpl in *; try lia; auto.
  f_equal; apply IH; lia.
Qed.

Lemma prep_values_finite (ps : list Q) : prep_values (map Fin ps) = map Fin ps.
Proof. unfold prep_values; rewrite map_map; reflexivity. Qed.

Lemma length_rows_between {X} (d : X) lo hi xs :
  length (rows_between d lo hi xs) = S hi - lo.
Proof. unfold rows_between; now rewrite length_map, length_seq. Qed.

(** ** Lengths of the per-group computations *)

Lemma length_ffill_from last xs : length (ffill_from last xs) = length xs.
Proof. revert last; induction xs; intros; simpl; auto. Qed.

Lemma length_pct_change xs : length (pct_change xs) = length xs.
Proof.
  unfold pct_change, shift, ffill.
  rewrite length_zip_with, length_firstn; simpl; rewrite !length_ffill_from; lia.
Qed.

Lemma length_rolling w agg xs : length (rolling w agg xs) = length xs.
Proof. unfold rolling; now rewrite length_map, length_seq. Qed.

Lemma length_np_cumprod_from acc xs : length (np_cumprod_from acc xs) = length xs.
Proof. revert acc; induction xs; intros; simpl; auto. Qed.

Lemma length_np_cumprod xs : length (np_cumprod xs) = length xs.
Proof. destruct xs; simpl; [|rewrite length_np_cumprod_from]; auto. Qed.

Lemma length_cumprod xs : length (cumprod xs) = length xs.
Proof.
  unfold cumprod; rewrite length_zip_with, length_np_cumprod, length_map; lia.
Qed.

(** ** The frame returned by [process_data], column by column *)

Section Columns.

Variable sort_values : list Row -> list Row.
Variable sqrt : Q -> Q.

Lemma process_data_unfold df :
  process_data sort_values sqrt df =
  let df := sorted_frame sort_values df in
  let coins := map coin df in
  let prices := map (fun r => Fin (price r)) df in
  let dr := transform pct_change coins prices in
  assemble df dr
    (transform (rolling_mean 7 1) coins prices)
    (transform (rolling_mean 30 1) coins prices)
    (transform (rolling_std sqrt 30 1) coins dr)
    (transform (fun x => cumprod (map (vadd (Fin 1)) x)) coins dr).
Proof. reflexivity. Qed.

Lemma assemble_columns df dr m7 m30 vol cum :
  length dr = length df -> length m7 = length df -> length m30 = length df ->
  length vol = length df -> length cum = length df ->
  let out := assemble df dr m7 m30 vol cum in
  map base out = df /\ map daily_return out = dr /\ map ma_7 out = m7 /\
  map ma_30 out = m30 /\ map volatility_30d out = vol /\
  map cumulative_return out = cum.
Proof.
  intros H1 H2 H3 H4 H5; unfold assemble; cbv zeta.
  rewrite !map_map.
  assert (L5 : length (combine vol cum) = length df)
    by (rewrite length_combine; lia).
  assert (L4 : length (combine m30 (combine vol cum)) = length df)
    by (rewrite length_combine; lia).
  assert (L3 : length (combine m7 (combine m30 (combine vol cum))) = length df)
    by (rewrite length_combine; lia).
  assert (L2 : length (combine dr (combine m7 (combine m30 (combine vol cum))))
               = length df)
    by (rewrite length_combine; lia).
  repeat split.
  - erewrite map_ext; [apply map_fst_combine; lia|].
    intros [r [a [b [c [d e]]]]]; reflexivity.
  - erewrite map_ext with (g := fun t => fst (snd t));
      [|intros [r [a [b [c [d e]]]]]; reflexivity].
    rewrite <- map_map with (f := snd) (g := fst).
    rewrite map_snd_combine by lia. apply map_fst_combine; lia.
  - erewrite map_ext with (g := fun t => fst (snd (snd t)));
      [|intros [r [a [b [c [d e]]]]]; reflexivity].
    rewrite <- map_map with (f := snd) (g := fun t => fst (snd t)).
    rewrite map_snd_combine by lia.
    rewrite <- map_map with (f := snd) (g := fst).
    rewrite map_snd_combine by lia. apply map_fst_combine; lia.
  - erewrite map_ext with (g := fun t => fst (snd (snd (snd t))));
      [|intros [r [a [b [c [d e]]]]]; reflexivity].
    rewrite <- map_map with (f := snd) (g := fun t => fst (snd (snd t))).
    rewrite map_snd_combine by lia.
    rewrite <- map_map with (f := snd) (g := fun t => fst (snd t)).
    rewrite map_snd_combine by lia.
    rewrite <- map_map with (f := snd) (g := fst).
    rewrite map_snd_combine by lia. apply map_fst_combine; lia.
  - erewrite map_ext with (g := fun t => fst (snd (snd (snd (snd t)))));
      [|intros [r [a [b [c [d e]]]]]; reflexivity].
    rewrite <- map_map with (f := snd) (g := fun t => fst (snd (snd (snd t)))).
    rewrite map_snd_combine by lia.
    rewrite <- map_map with (f := snd) (g := fun t => fst (snd (snd t))).
    rewrite map_snd_combine by lia.
    rewrite <- map_map with (f := snd) (g := fun t => fst (snd t)).
    rewrite map_snd_combine by lia.
    rewrite <- map_map with (f := snd) (g := fst).
    rewrite map_snd_combine by lia. apply map_fst_combine; lia.
  - erewrite map_ext with (g := fun t => snd (snd (snd (snd (snd t)))));
      [|intros [r [a [b [c [d e]]]]]; reflexivity].
    rewrite <- map_map with (f := snd) (g := fun t => snd (snd (snd (snd t)))).
    rewrite map_snd_combine by lia.
    rewrite <- map_map with (f := snd) (g := fun t => snd (snd (snd t))).
    rewrite map_snd_combine by lia.
    rewrite <- map_map with (f := snd) (g := fun t => snd (snd t)).
    rewrite map_snd_combine by lia.
    rewrite <- map_map with (f := snd) (g := snd).
    rewrite map_snd_combine by lia. apply map_snd_combine; lia.
Qed.

Lemma process_data_columns df :
  let out := process_data sort_values sqrt df in
  let sf := sorted_frame sort_values df in
  let coins := map coin sf in
  let prices := map (fun r => Fin (price r)) sf in
  let dr := transform pct_change coins prices in
  map base out = sf /\ map daily_return out = dr /\
  map ma_7 out = transform (rolling_mean 7 1) coins prices /\
  map ma_30 out = transform (rolling_mean 30 1) coins prices /\
  map volatility_30d out = transform (rolling_std sqrt 30 1) coins dr /\
  map cumulative_return out
  = transform (fun x => cumprod (map (vadd (Fin 1)) x)) coins dr.
Proof.
  rewrite process_data_unfold; cbv zeta.
  apply assemble_columns; rewrite length_transform, length_map; reflexivity.
Qed.

Lemma asset_rows_column {X} (proj : FeatureRow -> X) c out :
  map proj (asset_rows c out)
  = group c (map coin (map base out)) (map proj out).
Proof.
  unfold asset_rows; rewrite map_map.
  now rewrite (group_map (fun fr => coin (base fr)) proj c out).
Qed.

(** The rows of one asset carry what the per-group functions compute on
    that asset's rows of the sorted frame. *)
Lemma process_data_groups df c :
  let g := asset_rows c (process_data sort_values sqrt df) in
  let rows := coin_rows c (sorted_frame sort_values df) in
  let prices := map (fun r => Fin (price r)) rows in
  let returns := pct_change prices in
  map base g = rows /\
  map daily_return g = returns /\
  map ma_7 g = rolling_mean 7 1 prices /\
  map ma_30 g = rolling_mean 30 1 prices /\
  map volatility_30d g = rolling_std sqrt 30 1 returns /\
  map cumulative_return g = cumprod (map (vadd (Fin 1)) returns).
Proof.
  cbv zeta.
  destruct (process_data_columns df) as (Hb & Hr & H7 & H30 & Hv & Hc).
  cbv zeta in *.
  set (sf := sorted_frame sort_values df) in *.
  assert (Hp : group c (map coin sf) (map (fun r => Fin (price r)) sf)
               = map (fun r => Fin (price r)) (coin_rows c sf))
    by apply (group_map coin (fun r => Fin (price r)) c sf).
  assert (Hg : group c (map coin sf) (transform pct_change (map coin sf)
                                        (map (fun r => Fin (price r)) sf))
               = pct_change (map (fun r => Fin (price r)) (coin_rows c sf))).
  { rewrite group_transform, Hp; auto using length_pct_change.
    rewrite !length_map; lia. }
  rewrite !asset_rows_column, Hb, Hr, H7, H30, Hv, Hc.
  repeat split.
  - unfold coin_rows.
    rewrite <- (map_id sf) at 2.
    rewrite (group_map coin (fun r => r) c sf). apply map_id.
  - exact Hg.
  - rewrite group_transform, Hp; auto.
    + rewrite !length_map; lia.
    + intros; apply length_rolling.
  - rewrite group_transform, Hp; auto.
    + rewrite !length_map; lia.
    + intros; apply length_rolling.
  - rewrite group_transform, Hg; auto.
    + rewrite length_transform, length_map; lia.
    + intros; apply length_rolling.
  - rewrite group_transform, Hg; auto.
    + rewrite length_transform, length_map; lia.
    + intros; rewrite length_cumprod, length_map; reflexivity.
Qed.

End Columns.

(** ** Arithmetic of cells *)

Lemma signed_inf_not_finite pos q : is_finite (signed_inf pos q) = false.
Proof. unfold signed_inf; destruct (q ?= 0)%Q, pos; reflexivity. Qed.

Lemma signed_inf_nan pos q : signed_inf pos q = NaN <-> (q == 0)%Q.
Proof.
  unfold signed_inf; rewrite Qeq_alt.
  destruct (q ?= 0)%Q, pos; split; intros H; try reflexivity; discriminate.
Qed.

Lemma vdiv_by_nonzero a b : ~ (b == 0)%Q -> vdiv (Fin a) (Fin b) = Fin (a / b)%Q.
Proof.
  intros H; simpl.
  destruct (Qeq_bool b 0) eqn:E; [apply Qeq_bool_eq in E; contradiction|reflexivity].
Qed.

Lemma vdiv_by_zero a b : (b == 0)%Q -> vdiv (Fin a) (Fin b) = signed_inf true a.
Proof. intros H; simpl; now rewrite (Qeq_eq_bool _ _ H). Qed.

Lemma vsub_one_nan v : vsub v (Fin 1) = NaN <-> v = NaN.
Proof. destruct v; simpl; split; intros H; try reflexivity; discriminate. Qed.

Lemma vsub_one_not_finite v : is_finite v = false -> is_finite (vsub v (Fin 1)) = false.
Proof. destruct v; simpl; auto. Qed.

Lemma vmul_not_finite_l a b : is_finite a = false -> is_finite (vmul a b) = false.
Proof.
  destruct a, b; simpl; intros H; try reflexivity; try discriminate;
    apply signed_inf_not_finite.
Qed.

Lemma vmul_infinite_r a b : b = PInf \/ b = NInf -> is_finite (vmul a b) = false.
Proof.
  intros [->| ->]; destruct a; simpl; try reflexivity; apply signed_inf_not_finite.
Qed.

Lemma Qsum_nonneg xs : Forall (fun x => 0 <= x)%Q xs -> (0 <= Qsum xs)%Q.
Proof.
  induction 1 as [|x xs Hx _ IH]; simpl; [apply Qle_refl|].
  replace 0%Q with (0 + 0)%Q by reflexivity.
  now apply Qplus_le_compat.
Qed.

Lemma Qsquare_nonneg x : (0 <= x * x)%Q.
Proof.
  destruct (Qlt_le_dec x 0) as [H|H].
  - setoid_replace (x * x)%Q with ((- x) * (- x))%Q by ring.
    assert (0 <= - x)%Q by (apply (Qopp_le_compat x 0); now apply Qlt_le_weak).
    now apply Qmult_le_0_compat.
  - now apply Qmult_le_0_compat.
Qed.

Lemma ssqdm_nonneg obs : (0 <= ssqdm obs)%Q.
Proof.
  unfold ssqdm; apply Qsum_nonneg, Forall_forall.
  intros y Hy; apply in_map_iff in Hy; destruct Hy as (x & <- & _).
  apply Qsquare_nonneg.
Qed.

Lemma Qnat_pos n : 0 < n -> (0 < Qnat n)%Q.
Proof.
  intros H; unfold Qnat.
  change 0%Q with (inject_Z 0); rewrite <- Zlt_Qlt; lia.
Qed.

Lemma sample_variance_nonneg obs : 2 <= length obs -> (0 <= sample_variance obs)%Q.
Proof.
  intros H; unfold sample_variance.
  apply Qle_shift_div_l; [apply Qnat_pos; lia|].
  setoid_replace (0 * Qnat (length obs - 1))%Q with 0%Q by ring.
  apply ssqdm_nonneg.
Qed.

(** ** The per-group computations, row by row *)

Lemma nth_zip_with {A B C} (f : A -> B -> C) xs ys i da db dc :
  i < length xs -> i < length ys ->
  nth i (zip_with f xs ys) dc = f (nth i xs da) (nth i ys db).
Proof.
  revert ys i; induction xs as [|x xs IH]; intros [|y ys] [|i] Hx Hy;
    simpl in *; try lia; auto.
  apply IH; lia.
Qed.

Lemma zip_with_firstn {A B C} (f : A -> B -> C) xs ys :
  zip_with f xs (firstn (length xs) ys) = zip_with f xs ys.
Proof.
  revert ys; induction xs as [|x xs IH]; intros [|y ys]; simpl; auto.
  now rewrite IH.
Qed.

Lemma ffill_from_finite last (ps : list Q) :
  ffill_from last (map Fin ps) = map Fin ps.
Proof.
  revert last; induction ps as [|p ps IH]; intros last; simpl; auto.
  now rewrite IH.
Qed.

(** [pct_change] on finite prices: NaN on the first row, then the ratio to
    the previous price, minus one. *)
Lemma pct_change_nth (ps : list Q) i :
  i < length ps ->
  nth i (pct_change (map Fin ps)) NaN =
  match i with
  | 0 => NaN
  | S j => vsub (vdiv (Fin (nth i ps 0%Q)) (Fin (nth j ps 0%Q))) (Fin 1)
  end.
Proof.
  intros Hi; unfold pct_change, shift, ffill.
  rewrite ffill_from_finite, zip_with_firstn.
  rewrite (nth_zip_with _ _ _ i (Fin 0) (Fin 0)); simpl;
    try rewrite length_map; try lia.
  destruct i as [|j].
  - destruct ps; simpl in *; [lia|reflexivity].
  - change (Fin 0) with (Fin 0%Q).
    rewrite !(map_nth Fin); reflexivity.
Qed.

Lemma rolling_nth w agg xs i d :
  i < length xs ->
  nth i (rolling w agg xs) d = agg (window w i (prep_values xs)).
Proof.
  intros Hi; unfold rolling.
  rewrite (nth_indep _ d (agg (window w 0 (prep_values xs))))
    by (rewrite length_map, length_seq; exact Hi).
  rewrite (map_nth (fun i => agg (window w i (prep_values xs))) (seq 0 (length xs)) 0 i).
  now rewrite seq_nth.
Qed.

Lemma skipn_nth_cons {X} (d : X) xs lo :
  lo < length xs -> skipn lo xs = nth lo xs d :: skipn (S lo) xs.
Proof.
  revert lo; induction xs as [|x xs IH]; intros [|lo] H; simpl in *;
    try lia; auto.
  apply IH; lia.
Qed.

Lemma firstn_skipn_seq {X} (d : X) xs n lo :
  lo + n <= length xs ->
  firstn n (skipn lo xs) = map (fun j => nth j xs d) (seq lo n).
Proof.
  revert lo; induction n as [|n IH]; intros lo H; [reflexivity|].
  rewrite (skipn_nth_cons d) by lia.
  change (nth lo xs d :: firstn n (skipn (S lo) xs)
          = nth lo xs d :: map (fun j => nth j xs d) (seq (S lo) n)).
  f_equal; apply IH; lia.
Qed.

(** The window of [rolling(w)] ending at row [i] is rows
    [max(0, i - (w - 1)) .. i]. *)
Lemma window_rows_between {X} (d : X) w i xs :
  0 < w -> i < length xs ->
  window w i xs = rows_between d (i - (w - 1)) i xs.
Proof.
  intros Hw Hi; unfold window, rows_between.
  replace (S i - w) with (i - (w - 1)) by lia.
  apply firstn_skipn_seq; lia.
Qed.

Lemma window_map {X Y} (f : X -> Y) w i xs :
  window w i (map f xs) = map f (window w i xs).
Proof. unfold window; now rewrite skipn_map, firstn_map. Qed.

Lemma observations_prep_values vs :
  observations (prep_values vs) = observations vs.
Proof.
  unfold observations, prep_values.
  induction vs as [|v vs IH]; simpl; [reflexivity|].
  rewrite IH; destruct v; reflexivity.
Qed.

Lemma observations_finite (ps : list Q) : observations (map Fin ps) = ps.
Proof.
  unfold observations; induction ps as [|p ps IH]; simpl; congruence.
Qed.

Lemma np_cumprod_from_nth acc xs i d :
  i < length xs ->
  nth i (np_cumprod_from acc xs) d = fold_left vmul (firstn (S i) xs) acc.
Proof.
  revert acc i; induction xs as [|x xs IH]; intros acc [|i] H; simpl in *;
    try lia; auto.
  apply IH; lia.
Qed.

Lemma isna_one_plus r : isna (vadd (Fin 1) r) = isna r.
Proof. destruct r; reflexivity. Qed.

(** [(1 + x).cumprod()], row by row. *)
Lemma cumprod_nth (rs : list val) i :
  i < length rs ->
  nth i (cumprod (map (vadd (Fin 1)) rs)) NaN =
  if isna (nth i rs NaN) then NaN else growth_upto rs i.
Proof.
  intros Hi; unfold cumprod.
  rewrite (nth_zip_with _ _ _ i (Fin 1) NaN);
    try (rewrite ?length_np_cumprod, ?length_map; lia).
  replace (nth i (map (vadd (Fin 1)) rs) (Fin 1))
    with (vadd (Fin 1) (nth i rs NaN)).
  2:{ rewrite (nth_indep _ (Fin 1) (vadd (Fin 1) NaN)) by (rewrite length_map; lia).
      now rewrite (map_nth (vadd (Fin 1))). }
  rewrite isna_one_plus.
  destruct (isna (nth i rs NaN)); [reflexivity|].
  rewrite map_map.
  erewrite map_ext with (g := growth_factor);
    [|intros r; unfold growth_factor; now rewrite isna_one_plus].
  unfold growth_upto.
  destruct rs as [|r rs]; simpl in *; [lia|].
  destruct i as [|i]; [reflexivity|].
  rewrite np_cumprod_from_nth by (rewrite length_map; lia).
  now rewrite firstn_map.
Qed.

(** ** Sorting by date *)

Lemma date_le_trans : Relations_1.Transitive date_le.
Proof. intros a b c; unfold date_le; lia. Qed.

Lemma Permutation_filter {A} (f : A -> bool) l l' :
  Permutation l l' -> Permutation (filter f l) (filter f l').
Proof.
  induction 1 as [|x l l' _ IH|x y l|l l' l'' _ IH1 _ IH2]; simpl.
  - constructor.
  - destruct (f x); auto.
  - destruct (f x), (f y); auto using Permutation_refl, perm_swap.
  - eapply Permutation_trans; eauto.
Qed.

Lemma StronglySorted_filter {A} (R : A -> A -> Prop) (f : A -> bool) l :
  StronglySorted R l -> StronglySorted R (filter f l).
Proof.
  induction 1 as [|a l Hs IH Ha]; simpl; [constructor|].
  destruct (f a); auto.
  constructor; auto.
  rewrite Forall_forall in *; intros x Hx.
  apply filter_In in Hx; apply Ha; tauto.
Qed.

Lemma NoDup_map_In_eq {A B} (f : A -> B) l x y :
  NoDup (map f l) -> In x l -> In y l -> f x = f y -> x = y.
Proof.
  induction l as [|a l IH]; simpl; intros Hnd Hx Hy Hf; [contradiction|].
  inversion Hnd as [|? ? Hnin Hnd']; subst.
  destruct Hx as [->|Hx], Hy as [->|Hy]; auto.
  - exfalso; apply Hnin; rewrite Hf; now apply in_map.
  - exfalso; apply Hnin; rewrite <- Hf; now apply in_map.
Qed.

(** Rows with pairwise different dates have one date order only. *)
Lemma sorted_by_date_unique l1 l2 :
  StronglySorted date_le l1 -> StronglySorted date_le l2 ->
  Permutation l1 l2 -> NoDup (map date l1) -> l1 = l2.
Proof.
  revert l2; induction l1 as [|a l1 IH]; intros l2 S1 S2 P ND.
  - now apply Permutation_nil in P.
  - destruct l2 as [|b l2];
      [apply Permutation_sym, Permutation_nil in P; discriminate|].
    assert (Hab : a = b).
    { apply (NoDup_map_In_eq date (a :: l1)); auto.
      - now left.
      - apply (Permutation_in b (Permutation_sym P)); now left.
      - apply StronglySorted_inv in S1, S2.
        destruct S1 as [_ F1], S2 as [_ F2].
        rewrite Forall_forall in F1, F2; unfold date_le in *.
        assert (Hb : In b (a :: l1))
          by (apply (Permutation_in b (Permutation_sym P)); now left).
        assert (Ha : In a (b :: l2))
          by (apply (Permutation_in a P); now left).
        destruct Hb as [->|Hb]; [reflexivity|].
        destruct Ha as [->|Ha]; [reflexivity|].
        specialize (F1 _ Hb); specialize (F2 _ Ha); lia. }
    subst b; f_equal.
    apply StronglySorted_inv in S1, S2.
    inversion ND; subst.
    apply IH; try tauto.
    now apply Permutation_cons_inv in P.
Qed.

Lemma insert_by_date_perm before r l :
  Permutation (r :: l) (insert_by_date before r l).
Proof.
  induction l as [|x l IH]; simpl; [apply Permutation_refl|].
  destruct (before (date r) (date x)); [apply Permutation_refl|].
  eapply Permutation_trans; [apply perm_swap|]; now constructor.
Qed.

Lemma insertion_sort_perm before df : Permutation df (insertion_sort before df).
Proof.
  induction df as [|r df IH]; simpl; [constructor|].
  eapply Permutation_trans; [|apply insert_by_date_perm]; now constructor.
Qed.

Section InsertionSort.

Variable before : Z -> Z -> bool.
Hypothesis before_le : forall a b, before a b = true -> (a <= b)%Z.
Hypothesis not_before_ge : forall a b, before a b = false -> (b <= a)%Z.

Lemma insert_by_date_sorted r l :
  StronglySorted date_le l -> StronglySorted date_le (insert_by_date before r l).
Proof.
  induction 1 as [|x l Hs IH Hx]; simpl.
  - repeat constructor.
  - destruct (before (date r) (date x)) eqn:E.
    + constructor; [now constructor|].
      apply before_le in E.
      constructor; [exact E|].
      rewrite Forall_forall in *; intros y Hy.
      specialize (Hx _ Hy); unfold date_le in *; lia.
    + constructor; [exact IH|].
      apply not_before_ge in E.
      rewrite Forall_forall in *; intros y Hy.
      apply (Permutation_in y (Permutation_sym (insert_by_date_perm before r l))) in Hy.
      destruct Hy as [<-|Hy]; [exact E|now apply Hx].
Qed.

Lemma insertion_sort_sorted df : StronglySorted date_le (insertion_sort before df).
Proof.
  induction df as [|r df IH]; simpl; [constructor|].
  now apply insert_by_date_sorted.
Qed.

Lemma insertion_sort_sorts : sorts_by_date (insertion_sort before).
Proof.
  intros df; split;
    [apply insertion_sort_perm|apply StronglySorted_Sorted, insertion_sort_sorted].
Qed.

End InsertionSort.

Lemma stable_sort_sorts : sorts_by_date stable_sort.
Proof. apply insertion_sort_sorts; intros a b H; lia. Qed.

Lemma tie_reversing_sort_sorts : sorts_by_date tie_reversing_sort.
Proof. apply insertion_sort_sorts; intros a b H; lia. Qed.


(** ** [drop_duplicates] *)

Lemma key_eqb_eq a b : key_eqb a b = true <-> a = b.
Proof.
  destruct a as [d c], b as [d' c']; unfold key_eqb; simpl.
  rewrite andb_true_iff, Z.eqb_eq, String.eqb_eq.
  split; [intros [-> ->]; reflexivity|intros H; inversion H; auto].
Qed.

Lemma key_eqb_refl a : key_eqb a a = true.
Proof. now apply key_eqb_eq. Qed.

Lemma key_eqb_sym a b : key_eqb a b = key_eqb b a.
Proof.
  destruct (key_eqb a b) eqn:E, (key_eqb b a) eqn:E'; auto.
  - apply key_eqb_eq in E; subst; now rewrite key_eqb_refl in E'.
  - apply key_eqb_eq in E'; subst; now rewrite key_eqb_refl in E.
Qed.

Lemma existsb_key_In k seen : existsb (key_eqb k) seen = true <-> In k seen.
Proof.
  rewrite existsb_exists; split.
  - intros (x & Hx & E); apply key_eqb_eq in E; now subst.
  - intros H; exists k; split; [exact H|apply key_eqb_refl].
Qed.

(** Only the set of keys seen so far matters. *)
Lemma drop_duplicates_from_ext s1 s2 df :
  (forall k, existsb (key_eqb k) s1 = existsb (key_eqb k) s2) ->
  drop_duplicates_from s1 df = drop_duplicates_from s2 df.
Proof.
  revert s1 s2; induction df as [|r df IH]; intros s1 s2 H; simpl; [reflexivity|].
  rewrite H; destruct (existsb (key_eqb (key r)) s2); [now apply IH|].
  f_equal; apply IH; intros k; simpl; now rewrite H.
Qed.

Lemma filter_filter_same {A} (f : A -> bool) l : filter f (filter f l) = filter f l.
Proof.
  induction l as [|x l IH]; simpl; [reflexivity|].
  destruct (f x) eqn:E; simpl; rewrite ?E, IH; reflexivity.
Qed.

Lemma filter_filter_other {A} (f g : A -> bool) l :
  (forall x, g x = true -> f x = true) -> filter f (filter g l) = filter g l.
Proof.
  intros H; induction l as [|x l IH]; simpl; [reflexivity|].
  destruct (g x) eqn:E; simpl; [rewrite (H _ E), IH; reflexivity|exact IH].
Qed.

Lemma filter_comm {A} (f g : A -> bool) l :
  filter f (filter g l) = filter g (filter f l).
Proof.
  induction l as [|x l IH]; simpl; [reflexivity|].
  destruct (f x) eqn:Ef, (g x) eqn:Eg; simpl; rewrite ?Ef, ?Eg, IH; reflexivity.
Qed.

(** A key already seen removes the rows of that key and nothing else. *)
Lemma drop_duplicates_from_seen k seen df :
  drop_duplicates_from (k :: seen) df
  = filter (other_key k) (drop_duplicates_from seen df).
Proof.
  revert seen; induction df as [|r df IH]; intros seen; simpl; [reflexivity|].
  destruct (key_eqb (key r) k) eqn:Ek; simpl.
  - destruct (existsb (key_eqb (key r)) seen); [apply IH|].
    simpl; unfold other_key at 1; rewrite Ek; simpl.
    apply key_eqb_eq in Ek; rewrite Ek.
    now rewrite !IH, filter_filter_same.
  - destruct (existsb (key_eqb (key r)) seen); [apply IH|].
    simpl; unfold other_key at 1; rewrite Ek; simpl; f_equal.
    rewrite <- IH.
    apply drop_duplicates_from_ext; intros k'; simpl.
    destruct (key_eqb k' (key r)), (key_eqb k' k); reflexivity.
Qed.

(** [keep='first']: the first row stays, later rows of its key go. *)
Lemma drop_duplicates_cons r df :
  drop_duplicates (r :: df) = r :: filter (other_key (key r)) (drop_duplicates df).
Proof.
  unfold drop_duplicates; simpl; now rewrite drop_duplicates_from_seen.
Qed.

Lemma drop_duplicates_In r df : In r (drop_duplicates df) -> In r df.
Proof.
  induction df as [|x df IH]; [auto|].
  rewrite drop_duplicates_cons; simpl.
  intros [->|H]; [now left|right].
  apply filter_In in H; tauto.
Qed.

Lemma drop_duplicates_key_In k df :
  In k (map key (drop_duplicates df)) <-> In k (map key df).
Proof.
  induction df as [|x df IH]; [tauto|].
  rewrite drop_duplicates_cons; simpl.
  split.
  - intros [H|H]; [now left|right].
    apply IH. apply in_map_iff in H; destruct H as (y & <- & Hy).
    apply filter_In in Hy; apply in_map; tauto.
  - intros [H|H]; [now left|].
    destruct (key_eqb k (key x)) eqn:E;
      [apply key_eqb_eq in E; now left|right].
    apply IH, in_map_iff in H; destruct H as (y & <- & Hy).
    apply in_map, filter_In; split; [exact Hy|].
    unfold other_key; now rewrite E.
Qed.

Lemma drop_duplicates_NoDup df : NoDup (map key (drop_duplicates df)).
Proof.
  induction df as [|x df IH]; [constructor|].
  rewrite drop_duplicates_cons; simpl; constructor.
  - intros H; apply in_map_iff in H; destruct H as (y & E & Hy).
    apply filter_In in Hy; destruct Hy as [_ Hy].
    unfold other_key in Hy; rewrite E, key_eqb_refl in Hy; discriminate.
  - clear -IH; induction (drop_duplicates df) as [|y l IHl]; simpl; [constructor|].
    inversion IH; subst.
    destruct (other_key (key x) y); simpl; auto.
    constructor; auto.
    intros H; apply in_map_iff in H; destruct H as (z & E & Hz).
    apply filter_In in Hz; rewrite <- E in *.
    match goal with H : ~ In _ _ |- _ => apply H end.
    apply in_map; tauto.
Qed.

Lemma find_filter_other {A} (p q : A -> bool) l :
  (forall x, p x = true -> q x = true) -> find p (filter q l) = find p l.
Proof.
  intros H; induction l as [|x l IH]; simpl; [reflexivity|].
  destruct (q x) eqn:Eq; simpl.
  - destruct (p x); auto.
  - destruct (p x) eqn:Ep; [apply H in Ep; congruence|exact IH].
Qed.

(** The row kept for a key is the first row of that key in the frame. *)
Lemma drop_duplicates_first k df :
  first_with_key k (drop_duplicates df) = first_with_key k df.
Proof.
  unfold first_with_key; induction df as [|x df IH]; [reflexivity|].
  rewrite drop_duplicates_cons; simpl.
  destruct (key_eqb (key x) k) eqn:E; [reflexivity|].
  rewrite find_filter_other; [exact IH|].
  intros y Hy; unfold other_key.
  apply key_eqb_eq in Hy; subst k; now rewrite key_eqb_sym, E.
Qed.

Lemma first_with_key_NoDup r l :
  NoDup (map key l) -> In r l -> first_with_key (key r) l = Some r.
Proof.
  unfold first_with_key; induction l as [|x l IH]; simpl; [contradiction|].
  intros ND [->|H].
  - now rewrite key_eqb_refl.
  - inversion ND; subst.
    destruct (key_eqb (key x) (key r)) eqn:E; [|auto].
    apply key_eqb_eq in E; exfalso.
    match goal with H : ~ In _ _ |- _ => apply H end.
    rewrite E; now apply in_map.
Qed.

(** Removing the rows of some assets commutes with [drop_duplicates]. *)
Lemma drop_duplicates_filter (keep : string -> bool) df :
  drop_duplicates (filter (fun r => keep (coin r)) df)
  = filter (fun r => keep (coin r)) (drop_duplicates df).
Proof.
  induction df as [|x df IH]; [reflexivity|].
  rewrite drop_duplicates_cons; simpl.
  destruct (keep (coin x)) eqn:E.
  - rewrite drop_duplicates_cons, IH; f_equal; apply filter_comm.
  - rewrite IH, filter_comm, filter_filter_other; [reflexivity|].
    intros y Hy; unfold other_key.
    destruct (key_eqb (key y) (key x)) eqn:Ek; [|reflexivity].
    apply key_eqb_eq in Ek; inversion Ek; congruence.
Qed.

(** ** Moving average and volatility of one group *)

Lemma rolling_mean_rows (ps : list Q) w i :
  0 < w -> i < length ps ->
  nth i (rolling_mean w 1 (map Fin ps)) NaN
  = Fin (Qmean (rows_between 0%Q (i - (w - 1)) i ps)).
Proof.
  intros Hw Hi; unfold rolling_mean.
  rewrite rolling_nth by (rewrite length_map; exact Hi).
  rewrite prep_values_finite, window_map; unfold roll_mean.
  rewrite observations_finite, (window_rows_between 0%Q) by assumption.
  rewrite length_rows_between.
  replace (1 <=? S i - (i - (w - 1))) with true by (symmetry; apply Nat.leb_le; lia).
  replace (0 <? S i - (i - (w - 1))) with true by (symmetry; apply Nat.ltb_lt; lia).
  reflexivity.
Qed.

Lemma rolling_std_rows (sqrt : Q -> Q) (rs : list val) i :
  i < length rs ->
  nth i (rolling_std sqrt 30 1 rs) NaN
  = sample_std sqrt (finite_values (rows_between NaN (i - 29) i rs)).
Proof.
  intros Hi; unfold sample_std, rolling_std; rewrite rolling_nth by exact Hi.
  unfold prep_values at 1; rewrite window_map.
  fold (prep_values (window 30 i rs)).
  unfold roll_var; rewrite observations_prep_values.
  rewrite (window_rows_between NaN) by (assumption || lia).
  change (30 - 1) with 29; cbv zeta; unfold finite_values.
  set (obs := observations (rows_between NaN (i - 29) i rs)).
  destruct (length obs <? 2) eqn:E.
  - apply Nat.ltb_lt in E.
    replace ((1 <=? length obs) && (1 <? length obs)) with false; [reflexivity|].
    symmetry; apply andb_false_iff; right; apply Nat.ltb_ge; lia.
  - apply Nat.ltb_ge in E.
    replace ((1 <=? length obs) && (1 <? length obs)) with true.
    2:{ symmetry; apply andb_true_iff; split;
        [apply Nat.leb_le|apply Nat.ltb_lt]; lia. }
    simpl. fold (sample_variance obs).
    now rewrite (proj2 (Qle_bool_iff 0 _) (sample_variance_nonneg obs E)).
Qed.

(** On the first two rows of a group the window holds one return at most. *)
Lemma rolling_std_first_rows (sqrt : Q -> Q) (ps : list Q) i :
  i < length ps -> i < 2 ->
  nth i (rolling_std sqrt 30 1 (pct_change (map Fin ps))) NaN = NaN.
Proof.
  intros Hi H2.
  rewrite rolling_std_rows by (rewrite length_pct_change, length_map; exact Hi).
  unfold sample_std, finite_values, rows_between.
  replace (i - 29) with 0 by lia.
  destruct i as [|[|i]]; [| |lia]; simpl seq; simpl map;
    rewrite !pct_change_nth by lia; simpl.
  - reflexivity.
  - destruct (vsub _ _); reflexivity.
Qed.

(** ** Cumulative return of one group after a zero price *)

Lemma growth_upto_S rs i :
  S i < length rs ->
  growth_upto rs (S i)
  = vmul (growth_upto rs i) (growth_factor (nth (S i) rs NaN)).
Proof.
  intros H; unfold growth_upto.
  destruct rs as [|r rs]; [simpl in H; lia|].
  simpl in H.
  change (firstn (S (S i)) (r :: rs)) with (r :: firstn (S i) rs).
  change (firstn (S i) (r :: rs)) with (r :: firstn i rs).
  change (nth (S i) (r :: rs) NaN) with (nth i rs NaN).
  rewrite (firstn_S_nth NaN rs i) by lia.
  cbn [map]; rewrite map_app, fold_left_app; reflexivity.
Qed.

Lemma return_after_zero_price (ps : list Q) i :
  S i < length ps -> (nth i ps 0 == 0)%Q ->
  let r := nth (S i) (pct_change (map Fin ps)) NaN in
  (r = NaN /\ (nth (S i) ps 0 == 0)%Q) \/ r = PInf \/ r = NInf.
Proof.
  intros Hi Hz; cbv zeta.
  rewrite pct_change_nth by exact Hi.
  rewrite (vdiv_by_zero _ _ Hz); unfold signed_inf.
  destruct (Qcompare_spec (nth (S i) ps 0%Q) 0%Q) as [E|E|E]; simpl; auto.
Qed.

Lemma cumprod_not_finite_after_zero_price (ps : list Q) i j :
  (nth i ps 0 == 0)%Q -> i < j -> j < length ps ->
  let rs := pct_change (map Fin ps) in
  is_finite (nth j (cumprod (map (vadd (Fin 1)) rs)) NaN) = false.
Proof.
  intros Hz Hij Hj; cbv zeta.
  set (rs := pct_change (map Fin ps)).
  assert (Hlen : length rs = length ps)
    by (unfold rs; now rewrite length_pct_change, length_map).
  assert (Inv : forall k, i + k < length ps ->
            (nth (i + k) ps 0 == 0)%Q \/ is_finite (growth_upto rs (i + k)) = false).
  { induction k as [|k IH]; intros Hk.
    - left; now rewrite Nat.add_0_r.
    - replace (i + S k) with (S (i + k)) in * by lia.
      rewrite growth_upto_S by lia.
      destruct IH as [Hp|Hn]; [lia| |right; now apply vmul_not_finite_l].
      destruct (return_after_zero_price ps (i + k) Hk Hp) as [[_ Hp']|Hinf];
        [now left|right].
      fold rs in Hinf; apply vmul_infinite_r.
      unfold growth_factor; destruct Hinf as [-> | ->]; simpl; auto. }
  rewrite cumprod_nth by lia.
  destruct (isna (nth j rs NaN)) eqn:Ena; [reflexivity|].
  destruct j as [|j]; [lia|].
  replace (S j) with (S (i + (j - i))) in * by lia.
  rewrite growth_upto_S by lia.
  destruct (Inv (j - i)) as [Hp|Hn]; [lia| |now apply vmul_not_finite_l].
  destruct (return_after_zero_price ps (i + (j - i))) as [[Hnan _]|Hinf];
    [lia|exact Hp| |].
  - fold rs in Hnan; rewrite Hnan in Ena; discriminate.
  - fold rs in Hinf; apply vmul_infinite_r.
    unfold growth_factor; destruct Hinf as [-> | ->]; simpl; auto.
Qed.

(** ** Frames of rows and of output rows *)

Lemma StronglySorted_dates l :
  StronglySorted date_le l -> StronglySorted Z.le (map date l).
Proof.
  induction 1 as [|a l Hs IH Ha]; simpl; constructor; auto.
  rewrite Forall_forall in *; intros d Hd.
  apply in_map_iff in Hd; destruct Hd as (x & <- & Hx); now apply Ha.
Qed.

Lemma NoDup_dates_of_asset c l :
  NoDup (map key l) -> NoDup (map date (coin_rows c l)).
Proof.
  unfold coin_rows; induction l as [|x l IH]; simpl; intros ND; [constructor|].
  inversion ND as [|? ? Hnin ND']; subst.
  destruct (String.eqb (coin x) c) eqn:E; simpl; auto.
  constructor; auto.
  intros H; apply in_map_iff in H; destruct H as (y & Hd & Hy).
  apply filter_In in Hy; destruct Hy as [Hy Ec].
  apply Hnin.
  replace (key x) with (key y); [now apply in_map|].
  apply String.eqb_eq in E, Ec; unfold key; congruence.
Qed.

Lemma feature_rows_ext (g1 g2 : list FeatureRow) :
  map base g1 = map base g2 ->
  map daily_return g1 = map daily_return g2 ->
  map ma_7 g1 = map ma_7 g2 ->
  map ma_30 g1 = map ma_30 g2 ->
  map volatility_30d g1 = map volatility_30d g2 ->
  map cumulative_return g1 = map cumulative_return g2 ->
  g1 = g2.
Proof.
  revert g2; induction g1 as [|x g1 IH]; intros [|y g2]; simpl;
    intros H1 H2 H3 H4 H5 H6; try discriminate; [reflexivity|].
  inversion H1; inversion H2; inversion H3; inversion H4; inversion H5;
    inversion H6.
  f_equal; [|now apply IH].
  destruct x, y; simpl in *; congruence.
Qed.



(** * The derived columns of [process_data] *)

Section Engine.

Variable sort_values : list Row -> list Row.
Variable sqrt : Q -> Q.
Hypothesis sort_values_sorts : sorts_by_date sort_values.

(** The cells of row [i] of an asset, read off the per-group computations
    on that asset's price column. *)
Lemma asset_rows_cells df c i fr :
  let g := asset_rows c (process_data sort_values sqrt df) in
  let ps := map (fun r => price (base r)) g in
  let rs := map daily_return g in
  nth_error g i = Some fr ->
  i < length ps /\
  rs = pct_change (map Fin ps) /\
  nth i ps 0%Q = price (base fr) /\
  daily_return fr = nth i rs NaN /\
  ma_7 fr = nth i (rolling_mean 7 1 (map Fin ps)) NaN /\
  ma_30 fr = nth i (rolling_mean 30 1 (map Fin ps)) NaN /\
  volatility_30d fr = nth i (rolling_std sqrt 30 1 rs) NaN /\
  cumulative_return fr = nth i (cumprod (map (vadd (Fin 1)) rs)) NaN.
Proof.
  cbv zeta; intros Hfr.
  destruct (process_data_groups sort_values sqrt df c)
    as (Hb & Hr & H7 & H30 & Hv & Hc); cbv zeta in *.
  set (g := asset_rows c (process_data sort_values sqrt df)) in *.
  assert (Hp : map (fun r => Fin (price r)) (coin_rows c (sorted_frame sort_values df))
               = map Fin (map (fun r => price (base r)) g))
    by (rewrite <- Hb, !map_map; reflexivity).
  rewrite Hp in *; rewrite <- Hr in Hv, Hc.
  repeat split.
  - rewrite length_map; eapply nth_error_lt; eauto.
  - exact Hr.
  - now apply (nth_map_nth_error (fun r => price (base r))).
  - symmetry; now apply nth_map_nth_error.
  - rewrite <- H7; symmetry; now apply nth_map_nth_error.
  - rewrite <- H30; symmetry; now apply nth_map_nth_error.
  - rewrite <- Hv; symmetry; now apply nth_map_nth_error.
  - rewrite <- Hc; symmetry; now apply nth_map_nth_error.
Qed.

(** C6 (amended).  Within the rows of one asset, taken in the order of the
    sorted, deduplicated frame, [daily_return] is null on the first row
    and is [price[i] / price[i-1] - 1] on every later row, the previous
    row being the previous row of the same asset.  On a later row it is
    null only where that quotient is 0/0, that is where the row's price
    and the previous price are both 0. *)
Theorem daily_return_within_asset df c i fr :
  nth_error (asset_frame sort_values sqrt df c) i = Some fr ->
  map base (asset_frame sort_values sqrt df c)
  = coin_rows c (sorted_frame sort_values df) /\
  match i with
  | 0 => daily_return fr = NaN
  | S j =>
      exists prev,
        nth_error (asset_frame sort_values sqrt df c) j = Some prev /\
        daily_return fr
        = vsub (vdiv (Fin (price (base fr))) (Fin (price (base prev)))) (Fin 1) /\
        (~ (price (base prev) == 0)%Q ->
         daily_return fr = Fin (price (base fr) / price (base prev) - 1)%Q) /\
        (daily_return fr = NaN <->
         (price (base fr) == 0)%Q /\ (price (base prev) == 0)%Q)
  end.
Proof.
  unfold asset_frame; intros Hfr.
  split; [apply (process_data_groups sort_values sqrt df c)|].
  destruct (asset_rows_cells df c i fr Hfr) as (Hi & Hrs & Hp & Hd & _).
  cbv zeta in *; rewrite Hrs, pct_change_nth in Hd by exact Hi.
  destruct i as [|j]; [exact Hd|].
  rewrite length_map in Hi.
  destruct (nth_error (asset_rows c (process_data sort_values sqrt df)) j)
    as [prev|] eqn:Hprev; [|apply nth_error_None in Hprev; lia].
  exists prev; split; [reflexivity|].
  rewrite Hp in Hd.
  rewrite (nth_map_nth_error (fun r => price (base r)) _ j prev 0%Q Hprev) in Hd.
  split; [exact Hd|split].
  - intros Hnz; rewrite Hd, (vdiv_by_nonzero _ _ Hnz); reflexivity.
  - rewrite Hd, vsub_one_nan.
    destruct (Qeq_bool (price (base prev)) 0) eqn:E.
    + apply Qeq_bool_eq in E; rewrite (vdiv_by_zero _ _ E), signed_inf_nan; tauto.
    + apply Qeq_bool_neq in E; rewrite (vdiv_by_nonzero _ _ E).
      split; [discriminate|tauto].
Qed.

(** C5.  Within the rows of one asset, in the order of the sorted frame,
    [ma_7] (resp. [ma_30]) of row [i] is the arithmetic mean of the prices
    of rows [max(0, i-6) .. i] (resp. [max(0, i-29) .. i]): the window
    shrinks at the start and no cell is null.  With the five prices
    10, 20, 30, 40, 50 the fifth [ma_7] is 30, and an asset with one row
    has [ma_7 = ma_30 = price]. *)
Theorem moving_average_within_asset df c i fr :
  nth_error (asset_frame sort_values sqrt df c) i = Some fr ->
  map base (asset_frame sort_values sqrt df c)
  = coin_rows c (sorted_frame sort_values df) /\
  ma_7 fr
  = Fin (Qmean (rows_between 0%Q (i - 6) i
                  (prices_of (asset_frame sort_values sqrt df c)))) /\
  ma_30 fr
  = Fin (Qmean (rows_between 0%Q (i - 29) i
                  (prices_of (asset_frame sort_values sqrt df c)))) /\
  (prices_of (asset_frame sort_values sqrt df c) = [10; 20; 30; 40; 50]%Q ->
   i = 4 -> veq (ma_7 fr) (Fin 30)) /\
  (length (asset_frame sort_values sqrt df c) = 1 ->
   veq (ma_7 fr) (Fin (price (base fr))) /\ veq (ma_30 fr) (Fin (price (base fr)))).
Proof.
  unfold asset_frame, prices_of; intros Hfr.
  split; [apply (process_data_groups sort_values sqrt df c)|].
  destruct (asset_rows_cells df c i fr Hfr)
    as (Hi & _ & Hp & _ & H7 & H30 & _); cbv zeta in *.
  rewrite rolling_mean_rows in H7, H30 by (exact Hi || lia).
  change (7 - 1) with 6 in H7; change (30 - 1) with 29 in H30.
  split; [exact H7|split; [exact H30|split]].
  - intros Hps ->; rewrite H7, Hps; vm_compute; reflexivity.
  - intros Hlen; rewrite length_map, Hlen in Hi.
    assert (i = 0) by lia; subst i.
    rewrite H7, H30; unfold rows_between.
    change (seq (0 - 6) (1 - (0 - 6))) with [0].
    change (seq (0 - 29) (1 - (0 - 29))) with [0].
    cbn [map]; rewrite Hp.
    unfold veq, Qmean, Qsum; cbn [fold_right length].
    change (Qnat 1) with 1%Q.
    split; field.
Qed.

(** C1 (amended).  Within the rows of one asset, [cumulative_return] is
    null on every row whose [daily_return] is null, the asset's first row
    among them; on every other row [i] it is the product over [j = 0..i]
    of [1 + daily_return[j]], a null return counting as the factor 1.
    The prices 100, 110, 121 give the cumulative returns null, 1.10,
    1.21. *)
Theorem cumulative_return_within_asset df c i fr :
  nth_error (asset_frame sort_values sqrt df c) i = Some fr ->
  cumulative_return fr
  = (if isna (daily_return fr) then NaN
     else growth_upto (map daily_return (asset_frame sort_values sqrt df c)) i) /\
  (i = 0 -> cumulative_return fr = NaN) /\
  (prices_of (asset_frame sort_values sqrt df c) = [100; 110; 121]%Q ->
   Forall2 veq (map cumulative_return (asset_frame sort_values sqrt df c))
     [NaN; Fin 1.10; Fin 1.21]).
Proof.
  unfold asset_frame, prices_of; intros Hfr.
  destruct (asset_rows_cells df c i fr Hfr)
    as (Hi & Hrs & _ & Hd & _ & _ & _ & Hc); cbv zeta in *.
  assert (Hlen : i < length (map daily_return
                   (asset_rows c (process_data sort_values sqrt df))))
    by (rewrite length_map in *; exact Hi).
  rewrite cumprod_nth, <- Hd in Hc by exact Hlen.
  split; [exact Hc|split].
  - intros ->; rewrite Hc.
    rewrite Hrs, pct_change_nth in Hd by exact Hi; now rewrite Hd.
  - intros Hps.
    destruct (process_data_groups sort_values sqrt df c)
      as (Hb & _ & _ & _ & _ & Hcum); cbv zeta in *.
    rewrite Hcum, <- Hb, map_map.
    change (fun x => Fin (price (base x)))
      with (fun x => Fin ((fun r => price (base r)) x)).
    rewrite <- (map_map (fun r => price (base r)) Fin), Hps.
    vm_compute; repeat constructor.
Qed.

(** C3 (amended).  Within the rows of one asset, [volatility_30d] of row
    [i] is the sample standard deviation (N-1 denominator) of the finite
    [daily_return] cells of rows [max(0, i-29) .. i], null and infinite
    cells being left out alike, and it is null when that window has fewer
    than two finite cells; so it is on the first two rows of each asset. *)
Theorem volatility_within_asset df c i fr :
  nth_error (asset_frame sort_values sqrt df c) i = Some fr ->
  volatility_30d fr
  = sample_std sqrt
      (finite_values (trailing_returns (asset_frame sort_values sqrt df c) i)) /\
  (i < 2 -> volatility_30d fr = NaN).
Proof.
  unfold asset_frame, trailing_returns, sample_std; intros Hfr.
  destruct (asset_rows_cells df c i fr Hfr)
    as (Hi & Hrs & _ & _ & _ & _ & Hv & _); cbv zeta in *.
  split.
  - rewrite Hv; apply rolling_std_rows.
    rewrite length_map in *; exact Hi.
  - intros H2; rewrite Hv, Hrs; now apply rolling_std_first_rows.
Qed.

(** C4 (amended).  Where the previous row of the same asset has price 0,
    the engine still returns its frame; [daily_return] of the row is not
    finite (infinite, or NaN for 0/0); [cumulative_return] is not finite
    on that row and on every later row of the asset; [volatility_30d]
    does not take the value up: on every row it is the standard deviation
    of the finite returns of its window, the others counting as missing. *)
Theorem zero_price_within_asset df c i prev fr :
  nth_error (asset_frame sort_values sqrt df c) i = Some prev ->
  nth_error (asset_frame sort_values sqrt df c) (S i) = Some fr ->
  (price (base prev) == 0)%Q ->
  is_finite (daily_return fr) = false /\
  (forall j fr',
     S i <= j -> nth_error (asset_frame sort_values sqrt df c) j = Some fr' ->
     is_finite (cumulative_return fr') = false) /\
  (forall j fr',
     nth_error (asset_frame sort_values sqrt df c) j = Some fr' ->
     volatility_30d fr'
     = sample_std sqrt
         (finite_values (trailing_returns (asset_frame sort_values sqrt df c) j))).
Proof.
  unfold asset_frame, trailing_returns, sample_std; intros Hprev Hfr Hz.
  destruct (asset_rows_cells df c i prev Hprev) as (_ & _ & Hpp & _).
  destruct (asset_rows_cells df c (S i) fr Hfr) as (Hi & Hrs & Hp & Hd & _).
  cbv zeta in *; rewrite <- Hpp in Hz.
  split; [|split].
  - rewrite Hd, Hrs, pct_change_nth by exact Hi.
    apply vsub_one_not_finite.
    rewrite (vdiv_by_zero _ _ Hz); apply signed_inf_not_finite.
  - intros j fr' Hj Hfr'.
    destruct (asset_rows_cells df c j fr' Hfr')
      as (Hj' & _ & _ & _ & _ & _ & _ & Hc); cbv zeta in *.
    rewrite Hc, Hrs.
    apply (cumprod_not_finite_after_zero_price _ i j Hz); [lia|exact Hj'].
  - intros j fr' Hfr'.
    destruct (asset_rows_cells df c j fr' Hfr')
      as (Hj' & _ & _ & _ & _ & _ & Hv & _); cbv zeta in *.
    rewrite Hv; apply rolling_std_rows.
    rewrite length_map in *; exact Hj'.
Qed.

Lemma sorted_frame_perm df : Permutation (drop_duplicates df) (sorted_frame sort_values df).
Proof. apply sort_values_sorts. Qed.

Lemma sorted_frame_sorted df : StronglySorted date_le (sorted_frame sort_values df).
Proof.
  apply Sorted_StronglySorted; [exact date_le_trans|apply sort_values_sorts].
Qed.

(** C7.  The rows of the returned frame are the rows of the sorted frame
    of step 2, in that order: dates never decrease down the whole table,
    and the rows of different assets stay interleaved as the sort left
    them. *)
Theorem output_in_date_order df :
  map base (process_data sort_values sqrt df) = sort_values (drop_duplicates df) /\
  StronglySorted Z.le
    (map (fun fr => date (base fr)) (process_data sort_values sqrt df)).
Proof.
  cbv zeta.
  destruct (process_data_columns sort_values sqrt df) as (Hb & _); cbv zeta in Hb.
  split; [exact Hb|].
  rewrite <- (map_map base date), Hb.
  apply StronglySorted_dates, sorted_frame_sorted.
Qed.

(** The rows of an asset in the sorted frame do not depend on the rows of
    the other assets, nor on how the sort orders equal dates. *)
Lemma coin_rows_without df a b :
  a <> b ->
  coin_rows a (sorted_frame sort_values
                 (filter (fun r => negb (String.eqb (coin r) b)) df))
  = coin_rows a (sorted_frame sort_values df).
Proof.
  intros Hab.
  set (df' := filter (fun r => negb (String.eqb (coin r) b)) df).
  assert (Hdd : coin_rows a (drop_duplicates df') = coin_rows a (drop_duplicates df)).
  { unfold df'.
    rewrite (drop_duplicates_filter (fun c => negb (String.eqb c b))).
    unfold coin_rows; rewrite filter_comm; apply filter_filter_other.
    intros x Hx; apply String.eqb_eq in Hx; rewrite Hx.
    apply negb_true_iff, String.eqb_neq; exact Hab. }
  assert (P' : Permutation (coin_rows a (drop_duplicates df'))
                 (coin_rows a (sorted_frame sort_values df')))
    by apply Permutation_filter, sorted_frame_perm.
  assert (P : Permutation (coin_rows a (drop_duplicates df))
                (coin_rows a (sorted_frame sort_values df)))
    by apply Permutation_filter, sorted_frame_perm.
  apply sorted_by_date_unique.
  - apply StronglySorted_filter, sorted_frame_sorted.
  - apply StronglySorted_filter, sorted_frame_sorted.
  - eapply Permutation_trans; [apply Permutation_sym, P'|now rewrite Hdd].
  - apply (Permutation_NoDup (Permutation_map date P')).
    apply NoDup_dates_of_asset, drop_duplicates_NoDup.
Qed.

(** C8.  Deleting all rows of an asset [b] from the input leaves the rows
    of every other asset [a] as they were: the original columns and the
    five derived columns. *)
Theorem per_asset_independence df a b :
  a <> b ->
  asset_rows a (process_data sort_values sqrt
                  (filter (fun r => negb (String.eqb (coin r) b)) df))
  = asset_rows a (process_data sort_values sqrt df).
Proof.
  intros Hab.
  set (df' := filter (fun r => negb (String.eqb (coin r) b)) df).
  destruct (process_data_groups sort_values sqrt df a)
    as (Hb & Hr & H7 & H30 & Hv & Hc).
  destruct (process_data_groups sort_values sqrt df' a)
    as (Hb' & Hr' & H7' & H30' & Hv' & Hc').
  cbv zeta in *; unfold df' in *; rewrite (coin_rows_without df a b Hab) in *.
  apply feature_rows_ext; congruence.
Qed.

Lemma process_data_In fr df :
  In fr (process_data sort_values sqrt df) -> In (base fr) (drop_duplicates df).
Proof.
  intros H.
  destruct (process_data_columns sort_values sqrt df) as (Hb & _); cbv zeta in Hb.
  apply (Permutation_in _ (Permutation_sym (sorted_frame_perm df))).
  rewrite <- Hb; now apply in_map.
Qed.

Lemma process_data_first fr df :
  In fr (process_data sort_values sqrt df) ->
  first_with_key (key (base fr)) df = Some (base fr).
Proof.
  intros H; rewrite <- drop_duplicates_first.
  apply first_with_key_NoDup;
    [apply drop_duplicates_NoDup|now apply process_data_In].
Qed.


(** C10.  [process_data] removes duplicates before it sorts, keeping the
    first occurrence: for every key of the input, the returned frame has
    the first row of that key in input order, with its date, price,
    volume and market cap as they were, and every returned row is such a
    first row. *)
Theorem first_input_occurrence_survives df :
  map base (process_data sort_values sqrt df) = sort_values (drop_duplicates df) /\
  (forall r, In r df ->
     exists first fr,
       first_with_key (key r) df = Some first /\
       In fr (process_data sort_values sqrt df) /\
       date (base fr) = date first /\ coin (base fr) = coin first /\
       price (base fr) = price first /\ volume (base fr) = volume first /\
       market_cap (base fr) = market_cap first) /\
  (forall fr, In fr (process_data sort_values sqrt df) ->
     first_with_key (key (base fr)) df = Some (base fr)).
Proof.
  cbv zeta.
  destruct (process_data_columns sort_values sqrt df) as (Hb & _); cbv zeta in Hb.
  split; [exact Hb|split].
  - intros r Hr.
    assert (Hk : In (key r) (map key (drop_duplicates df)))
      by (apply drop_duplicates_key_In; now apply in_map).
    apply in_map_iff in Hk; destruct Hk as (first & Hkey & Hfirst).
    assert (Hin : In first (map base (process_data sort_values sqrt df)))
      by (rewrite Hb; apply (Permutation_in _ (sorted_frame_perm df)); exact Hfirst).
    apply in_map_iff in Hin; destruct Hin as (fr & Hbase & Hfr).
    exists first, fr; rewrite Hbase; repeat split; auto.
    rewrite <- Hkey, <- drop_duplicates_first.
    apply first_with_key_NoDup; [apply drop_duplicates_NoDup|exact Hfirst].
  - intros fr; apply process_data_first.
Qed.

End Engine.

(** * [run_pipeline] *)

Lemma fetch_historical_data_cases api c :
  (fetch_fails api c /\ fetch_historical_data api c = Returned None) \/
  fetch_historical_data api c = Raised \/
  (fetch_returns_frame api c /\
   exists p v m, api c = Payload p v m /\
     fetch_historical_data api c = Returned (Some (payload_rows c p v m))).
Proof.
  unfold fetch_fails, fetch_returns_frame, fetch_historical_data, to_frame.
  destruct (api c) as [p v m| |]; [|right; left; reflexivity|left; auto].
  destruct (same_length p v m); [|right; left; reflexivity].
  destruct (timestamps_in_range p); [|right; left; reflexivity].
  right; right; split; [auto|exists p, v, m; auto].
Qed.

Lemma answer_malformed_raises api c :
  answer_malformed (api c) -> fetch_historical_data api c = Raised.
Proof.
  unfold answer_malformed, fetch_historical_data, to_frame.
  destruct (api c) as [p v m| |]; [|reflexivity|contradiction].
  intros [H|(e & He & Hout & _)]; [now rewrite H|].
  destruct (same_length p v m); [|reflexivity].
  destruct (timestamps_in_range p) eqn:Hall; [|reflexivity].
  unfold timestamps_in_range in Hall; rewrite forallb_forall in Hall.
  rewrite (Hall e He) in Hout; discriminate.
Qed.

Lemma fetch_returns_frame_not_raised api c :
  fetch_fails api c \/ fetch_returns_frame api c ->
  fetch_historical_data api c <> Raised.
Proof.
  unfold fetch_fails, fetch_returns_frame, fetch_historical_data, to_frame.
  destruct (api c) as [p v m| |]; intros [H|H]; try discriminate; try contradiction.
  destruct H as [-> ->]; discriminate.
Qed.

Lemma fetch_all_raised api n coins acc :
  fetch_all api n coins acc = Raised <->
  exists k c, nth_error coins k = Some c /\
              fetch_historical_data (api (n + k)) c = Raised.
Proof.
  revert n acc; induction coins as [|c coins IH]; intros n acc; simpl.
  - split; [discriminate|intros (k & c & H & _); destruct k; discriminate].
  - assert (Hstep : forall acc',
              fetch_historical_data (api n) c <> Raised ->
              (fetch_all api (S n) coins acc' = Raised <->
               exists k x, nth_error (c :: coins) k = Some x /\
                           fetch_historical_data (api (n + k)) x = Raised)).
    { intros acc' Hc; rewrite IH; split.
      - intros (k & x & Hk & Hx); exists (S k), x; split; [exact Hk|].
        rewrite Nat.add_succ_r; exact Hx.
      - intros ([|k] & x & Hk & Hx).
        + simpl in Hk; inversion Hk; subst x.
          rewrite Nat.add_0_r in Hx; contradiction.
        + exists k, x; split; [exact Hk|].
          rewrite Nat.add_succ_r in Hx; exact Hx. }
    destruct (fetch_historical_data (api n) c) as [[df|]|] eqn:E.
    + apply Hstep; discriminate.
    + apply Hstep; discriminate.
    + split; [intros _; exists 0, c; split; [reflexivity|]|reflexivity].
      rewrite Nat.add_0_r; exact E.
Qed.

Lemma fetch_all_returned api n coins acc l :
  fetch_all api n coins acc = Returned l ->
  l = acc ++ fetched_frames_from api n coins.
Proof.
  revert n acc; induction coins as [|c coins IH]; intros n acc; simpl.
  - intros H; inversion H; now rewrite app_nil_r.
  - destruct (fetch_historical_data_cases (api n) c)
      as [[Hf E]|[E|[Hs (p & v & m & Ha & E)]]]; rewrite E.
    + unfold fetch_fails in Hf; rewrite Hf; apply IH.
    + discriminate.
    + rewrite Ha; intros H; apply IH in H.
      now rewrite <- app_assoc in H.
Qed.

Lemma in_fetched_frames_from api n coins f :
  In f (fetched_frames_from api n coins) <->
  exists k c p v m,
    nth_error coins k = Some c /\ api (n + k) c = Payload p v m /\
    f = payload_rows c p v m.
Proof.
  revert n; induction coins as [|c coins IH]; intros n; simpl.
  - split; [contradiction|intros (k & c & p & v & m & H & _); destruct k; discriminate].
  - rewrite in_app_iff, IH; split.
    + intros [H|(k & x & p & v & m & Hk & Ha & Hf)].
      * destruct (api n c) as [p v m| |] eqn:Ha; try contradiction.
        destruct H as [<-|[]]; exists 0, c, p, v, m.
        rewrite Nat.add_0_r; auto.
      * exists (S k), x, p, v, m; rewrite Nat.add_succ_r; auto.
    + intros ([|k] & x & p & v & m & Hk & Ha & Hf).
      * simpl in Hk; inversion Hk; subst x.
        rewrite Nat.add_0_r in Ha; rewrite Ha; left; left; auto.
      * right; exists k, x, p, v, m; rewrite Nat.add_succ_r in Ha; auto.
Qed.

Lemma fetch_all_frames api n coins acc :
  (forall k c, nth_error coins k = Some c ->
     fetch_fails (api (n + k)) c \/ fetch_returns_frame (api (n + k)) c) ->
  fetch_all api n coins acc = Returned (acc ++ fetched_frames_from api n coins).
Proof.
  intros H; destruct (fetch_all api n coins acc) as [l|] eqn:E.
  - now rewrite (fetch_all_returned _ _ _ _ _ E).
  - apply fetch_all_raised in E; destruct E as (k & c & Hk & Hr).
    now apply fetch_returns_frame_not_raised in Hr; [|apply H].
Qed.

Lemma fetched_frames_none api n coins :
  (forall k c, nth_error coins k = Some c -> fetch_fails (api (n + k)) c) ->
  fetched_frames_from api n coins = [].
Proof.
  intros H; destruct (fetched_frames_from api n coins) as [|f l] eqn:E; [reflexivity|].
  assert (Hf : In f (fetched_frames_from api n coins)) by (rewrite E; now left).
  apply in_fetched_frames_from in Hf.
  destruct Hf as (k & c & p & v & m & Hk & Ha & _).
  specialize (H k c Hk); unfold fetch_fails in H; congruence.
Qed.

Lemma fetched_frames_some api n coins :
  (exists k c, nth_error coins k = Some c /\ fetch_returns_frame (api (n + k)) c) ->
  fetched_frames_from api n coins <> [].
Proof.
  intros (k & c & Hk & Hs) E.
  unfold fetch_returns_frame in Hs.
  destruct (api (n + k) c) as [p v m| |] eqn:Ha; try contradiction.
  assert (Hf : In (payload_rows c p v m) (fetched_frames_from api n coins))
    by (apply in_fetched_frames_from; exists k, c, p, v, m; auto).
  rewrite E in Hf; contradiction.
Qed.

(** C9 (amended).  A request either fails with a request exception, or
    gives a frame, or is answered with a malformed object.  In a run whose
    requests all fail or give a frame: when every request fails,
    [run_pipeline] returns [None] and raises nothing; when at least one
    gives a frame, the failed requests are skipped and [run_pipeline]
    returns the frame computed from all the frames fetched, so that the
    request failure of one asset does not end the run.  A malformed answer
    to any request of the run, though, is caught nowhere: [run_pipeline]
    raises, whatever the other requests gave. *)
Theorem run_pipeline_outcomes sort_values sqrt api coins :
  ((forall n c, requested coins n c ->
      fetch_fails (api n) c \/ fetch_returns_frame (api n) c) ->
   ((forall n c, requested coins n c -> fetch_fails (api n) c) ->
    run_pipeline sort_values sqrt api coins = Returned None) /\
   ((exists n c, requested coins n c /\ fetch_returns_frame (api n) c) ->
    run_pipeline sort_values sqrt api coins
    = Returned (Some (process_data sort_values sqrt
                        (concat (fetched_frames api coins)))))) /\
  ((exists n c, requested coins n c /\ answer_malformed (api n c)) ->
   run_pipeline sort_values sqrt api coins = Raised).
Proof.
  unfold run_pipeline, requested, fetched_frames; split.
  - intros H.
    rewrite (fetch_all_frames api 0 coins [] H); simpl; split.
    + intros Hall; now rewrite (fetched_frames_none api 0 coins Hall).
    + intros Hsome; apply (fetched_frames_some api 0 coins) in Hsome.
      destruct (fetched_frames_from api 0 coins); [contradiction|reflexivity].
  - intros (n & c & Hn & Hm).
    assert (E : fetch_all api 0 coins [] = Raised)
      by (apply fetch_all_raised; exists n, c; split;
          [exact Hn|now apply answer_malformed_raises]).
    now rewrite E.
Qed.

(** * The properties on sample frames *)

(** C1, as stated, fails on its own example: with the prices 100, 110,
    121 the first cumulative return is null, not 1.0. *)
Lemma cumulative_return_first_row_not_one :
  map cumulative_return (run_one_asset [100; 110; 121]%Q)
  = [NaN; Fin 1.10; Fin (13310 # 11000)] /\
  ~ Forall2 veq (map cumulative_return (run_one_asset [100; 110; 121]%Q))
      [Fin 1; Fin 1.10; Fin 1.21].
Proof.
  split; [vm_compute; reflexivity|].
  intros H; vm_compute in H.
  inversion H as [|? ? ? ? Hhd _]; exact Hhd.
Qed.

Lemma cumulative_return_within_asset_witness :
  nth_error sample_bitcoin 1 = Some (nth 1 sample_bitcoin no_row) /\
  prices_of sample_bitcoin = [100; 110; 121]%Q /\
  cumulative_return (nth 1 sample_bitcoin no_row)
  = (if isna (daily_return (nth 1 sample_bitcoin no_row)) then NaN
     else growth_upto (map daily_return sample_bitcoin) 1) /\
  Forall2 veq (map cumulative_return sample_bitcoin) [NaN; Fin 1.10; Fin 1.21].
Proof.
  assert (H : nth_error (asset_frame stable_sort Qsqrt6 sample_frame "bitcoin") 1
              = Some (nth 1 sample_bitcoin no_row))
    by (vm_compute; reflexivity).
  assert (P : prices_of (asset_frame stable_sort Qsqrt6 sample_frame "bitcoin")
              = [100; 110; 121]%Q)
    by (vm_compute; reflexivity).
  split; [exact H|split; [exact P|split]].
  - exact (proj1 (cumulative_return_within_asset stable_sort Qsqrt6 sample_frame
                    "bitcoin" 1 (nth 1 sample_bitcoin no_row) H)).
  - exact (proj2 (proj2 (cumulative_return_within_asset stable_sort Qsqrt6
                           sample_frame "bitcoin" 1 (nth 1 sample_bitcoin no_row) H))
             P).
Defined.



(** C3, as stated, fails where a return is infinite: with the prices 0, 5,
    6, 7 the returns are null, +inf, 1/5, 1/6; the standard deviation of
    the three cells that are not null is undefined, and [volatility_30d]
    of the fourth row is the standard deviation of 1/5 and 1/6. *)
Lemma volatility_leaves_out_infinite_return :
  Forall2 veq (map daily_return (run_one_asset [0; 5; 6; 7]%Q))
    [NaN; PInf; Fin (1 # 5); Fin (1 # 6)] /\
  spec_sample_std Qsqrt6 (trailing_returns (run_one_asset [0; 5; 6; 7]%Q) 3) = NaN /\
  is_finite (volatility_30d (nth 3 (run_one_asset [0; 5; 6; 7]%Q) no_row)) = true /\
  ~ veq (volatility_30d (nth 3 (run_one_asset [0; 5; 6; 7]%Q) no_row))
       (spec_sample_std Qsqrt6 (trailing_returns (run_one_asset [0; 5; 6; 7]%Q) 3)).
Proof.
  split; [vm_compute; repeat constructor|].
  split; [vm_compute; reflexivity|].
  split; [vm_compute; reflexivity|].
  vm_compute; exact (fun H => H).
Qed.

Lemma volatility_within_asset_witness :
  nth_error sample_ethereum 3 = Some (nth 3 sample_ethereum no_row) /\
  volatility_30d (nth 3 sample_ethereum no_row)
  = sample_std Qsqrt6 (finite_values (trailing_returns sample_ethereum 3)).
Proof.
  split; [vm_compute; reflexivity|].
  refine (proj1 (volatility_within_asset stable_sort Qsqrt6 sample_frame
                   "ethereum" 3 (nth 3 sample_ethereum no_row) _)).
  vm_compute; reflexivity.
Defined.

(** C4, as stated, fails for [volatility_30d]: with the prices 1, 2, 3, 0,
    5 the return of the fifth row is +inf and the volatility of that row
    is a finite number, the standard deviation of the three finite
    returns before it. *)
Lemma volatility_finite_after_zero_price :
  prices_of (run_one_asset [1; 2; 3; 0; 5]%Q) = [1; 2; 3; 0; 5]%Q /\
  daily_return (nth 4 (run_one_asset [1; 2; 3; 0; 5]%Q) no_row) = PInf /\
  is_finite (volatility_30d (nth 4 (run_one_asset [1; 2; 3; 0; 5]%Q) no_row)) = true /\
  volatility_30d (nth 4 (run_one_asset [1; 2; 3; 0; 5]%Q) no_row)
  = volatility_30d (nth 3 (run_one_asset [1; 2; 3; 0; 5]%Q) no_row).
Proof. repeat split; vm_compute; reflexivity. Qed.

Lemma zero_price_within_asset_witness :
  nth_error sample_ethereum 1 = Some (nth 1 sample_ethereum no_row) /\
  nth_error sample_ethereum 2 = Some (nth 2 sample_ethereum no_row) /\
  (price (base (nth 1 sample_ethereum no_row)) == 0)%Q /\
  is_finite (daily_return (nth 2 sample_ethereum no_row)) = false /\
  is_finite (cumulative_return (nth 3 sample_ethereum no_row)) = false.
Proof.
  assert (H1 : nth_error (asset_frame stable_sort Qsqrt6 sample_frame "ethereum") 1
               = Some (nth 1 sample_ethereum no_row))
    by (vm_compute; reflexivity).
  assert (H2 : nth_error (asset_frame stable_sort Qsqrt6 sample_frame "ethereum") 2
               = Some (nth 2 sample_ethereum no_row))
    by (vm_compute; reflexivity).
  assert (H3 : nth_error (asset_frame stable_sort Qsqrt6 sample_frame "ethereum") 3
               = Some (nth 3 sample_ethereum no_row))
    by (vm_compute; reflexivity).
  assert (Hz : (price (base (nth 1 sample_ethereum no_row)) == 0)%Q)
    by (vm_compute; reflexivity).
  split; [exact H1|split; [exact H2|split; [exact Hz|split]]].
  - exact (proj1 (zero_price_within_asset stable_sort Qsqrt6 sample_frame "ethereum" 1
                    (nth 1 sample_ethereum no_row) (nth 2 sample_ethereum no_row)
                    H1 H2 Hz)).
  - refine (proj1 (proj2 (zero_price_within_asset stable_sort Qsqrt6 sample_frame
                            "ethereum" 1 (nth 1 sample_ethereum no_row)
                            (nth 2 sample_ethereum no_row) H1 H2 Hz))
              3 (nth 3 sample_ethereum no_row) _ H3).
    lia.
Defined.

Lemma moving_average_within_asset_witness :
  nth_error (run_one_asset [10; 20; 30; 40; 50]%Q) 4
  = Some (nth 4 (run_one_asset [10; 20; 30; 40; 50]%Q) no_row) /\
  prices_of (run_one_asset [10; 20; 30; 40; 50]%Q) = [10; 20; 30; 40; 50]%Q /\
  ma_7 (nth 4 (run_one_asset [10; 20; 30; 40; 50]%Q) no_row)
  = Fin (Qmean (rows_between 0%Q (4 - 6) 4
                  (prices_of (run_one_asset [10; 20; 30; 40; 50]%Q)))) /\
  veq (ma_7 (nth 4 (run_one_asset [10; 20; 30; 40; 50]%Q) no_row)) (Fin 30).
Proof.
  assert (H : nth_error (asset_frame stable_sort Qsqrt6
                           (one_asset "bitcoin" [10; 20; 30; 40; 50]%Q) "bitcoin") 4
              = Some (nth 4 (run_one_asset [10; 20; 30; 40; 50]%Q) no_row))
    by (vm_compute; reflexivity).
  assert (P : prices_of (asset_frame stable_sort Qsqrt6
                           (one_asset "bitcoin" [10; 20; 30; 40; 50]%Q) "bitcoin")
              = [10; 20; 30; 40; 50]%Q)
    by (vm_compute; reflexivity).
  split; [exact H|split; [exact P|split]].
  - exact (proj1 (proj2 (moving_average_within_asset stable_sort Qsqrt6
                           (one_asset "bitcoin" [10; 20; 30; 40; 50]%Q) "bitcoin" 4
                           (nth 4 (run_one_asset [10; 20; 30; 40; 50]%Q) no_row) H))).
  - exact (proj1 (proj2 (proj2 (proj2
             (moving_average_within_asset stable_sort Qsqrt6
                (one_asset "bitcoin" [10; 20; 30; 40; 50]%Q) "bitcoin" 4
                (nth 4 (run_one_asset [10; 20; 30; 40; 50]%Q) no_row) H))))
             P eq_refl).
Defined.

(** C6, as stated, fails where two successive prices are 0: with the
    prices 0, 0 the second row, which is not the asset's first, has a
    null [daily_return]. *)
Lemma daily_return_null_after_first_row :
  nth_error (run_one_asset [0; 0]%Q) 1 = Some (nth 1 (run_one_asset [0; 0]%Q) no_row) /\
  daily_return (nth 1 (run_one_asset [0; 0]%Q) no_row) = NaN.
Proof. split; vm_compute; reflexivity. Qed.

Lemma daily_return_within_asset_witness :
  nth_error sample_bitcoin 1 = Some (nth 1 sample_bitcoin no_row) /\
  map base sample_bitcoin = coin_rows "bitcoin" (sorted_frame stable_sort sample_frame).
Proof.
  split; [vm_compute; reflexivity|].
  refine (proj1 (daily_return_within_asset stable_sort Qsqrt6 sample_frame
                   "bitcoin" 1 (nth 1 sample_bitcoin no_row) _)).
  vm_compute; reflexivity.
Defined.

Lemma output_in_date_order_witness :
  sorts_by_date stable_sort /\
  map base (process_data stable_sort Qsqrt6 sample_frame)
  = stable_sort (drop_duplicates sample_frame) /\
  StronglySorted Z.le
    (map (fun fr => date (base fr)) (process_data stable_sort Qsqrt6 sample_frame)).
Proof.
  split; [exact stable_sort_sorts|].
  exact (output_in_date_order stable_sort Qsqrt6 stable_sort_sorts sample_frame).
Defined.

Lemma per_asset_independence_witness :
  sorts_by_date stable_sort /\
  "bitcoin"%string <> "ethereum"%string /\
  asset_rows "bitcoin"
    (process_data stable_sort Qsqrt6
       (filter (fun r => negb (String.eqb (coin r) "ethereum")) sample_frame))
  = asset_rows "bitcoin" (process_data stable_sort Qsqrt6 sample_frame).
Proof.
  split; [exact stable_sort_sorts|].
  split; [apply String.eqb_neq; reflexivity|].
  apply (per_asset_independence stable_sort Qsqrt6 stable_sort_sorts sample_frame
           "bitcoin" "ethereum").
  apply String.eqb_neq; reflexivity.
Defined.

Lemma first_input_occurrence_survives_witness :
  sorts_by_date stable_sort /\
  map base (process_data stable_sort Qsqrt6 sample_frame)
  = stable_sort (drop_duplicates sample_frame).
Proof.
  split; [exact stable_sort_sorts|].
  exact (proj1 (first_input_occurrence_survives stable_sort Qsqrt6 stable_sort_sorts
                  sample_frame)).
Defined.

(** C9, as stated, fails when the answer for an asset is malformed: with a
    well-formed answer for ethereum and an answer for bitcoin whose volume
    series is one entry short, the fetch of ethereum gives its frame of
    two rows and [run_pipeline] raises; so it does when the answer for
    bitcoin lacks a series. *)
Lemma run_pipeline_aborts_on_malformed_answer :
  fetch_historical_data misaligned_api "ethereum"
  = Returned (Some [mkRow 1 "ethereum" 10 3 1; mkRow 2 "ethereum" 11 4 2]) /\
  run_pipeline stable_sort Qsqrt6 (fun _ => misaligned_api)
    ["ethereum"; "bitcoin"]%string = Raised /\
  fetch_historical_data incomplete_api "ethereum"
  = Returned (Some [mkRow 1 "ethereum" 10 3 1; mkRow 2 "ethereum" 11 4 2]) /\
  run_pipeline stable_sort Qsqrt6 (fun _ => incomplete_api)
    ["ethereum"; "bitcoin"]%string = Raised.
Proof. repeat split; vm_compute; reflexivity. Qed.

Lemma run_pipeline_outcomes_witness :
  (forall n c, requested ["bitcoin"; "ethereum"]%string n c ->
     fetch_fails sample_api c \/ fetch_returns_frame sample_api c) /\
  (exists n c, requested ["bitcoin"; "ethereum"]%string n c /\
     fetch_returns_frame sample_api c) /\
  run_pipeline stable_sort Qsqrt6 (fun _ => sample_api) ["bitcoin"; "ethereum"]%string
  = Returned (Some (process_data stable_sort Qsqrt6
                      (concat (fetched_frames (fun _ => sample_api)
                                 ["bitcoin"; "ethereum"]%string)))) /\
  run_pipeline stable_sort Qsqrt6 (fun _ => failing_api) ["bitcoin"; "ethereum"]%string
  = Returned None /\
  (exists n c, requested ["ethereum"; "bitcoin"]%string n c /\
     answer_malformed (misaligned_api c)) /\
  run_pipeline stable_sort Qsqrt6 (fun _ => misaligned_api)
    ["ethereum"; "bitcoin"]%string = Raised.
Proof.
  assert (H : forall n c, requested ["bitcoin"; "ethereum"]%string n c ->
                fetch_fails sample_api c \/ fetch_returns_frame sample_api c).
  { intros [|[|n]] c Hr; unfold requested in Hr; simpl in Hr.
    - inversion Hr; right; vm_compute; auto.
    - inversion Hr; left; reflexivity.
    - destruct n; discriminate. }
  assert (E : exists n c, requested ["bitcoin"; "ethereum"]%string n c /\
                fetch_returns_frame sample_api c)
    by (exists 0, "bitcoin"%string; split; [reflexivity|vm_compute; auto]).
  assert (M : exists n c, requested ["ethereum"; "bitcoin"]%string n c /\
                answer_malformed (misaligned_api c))
    by (exists 1, "bitcoin"%string; split; [reflexivity|left; reflexivity]).
  split; [exact H|split; [exact E|split; [|split; [|split; [exact M|]]]]].
  - exact (proj2 (proj1 (run_pipeline_outcomes stable_sort Qsqrt6 (fun _ => sample_api)
                           ["bitcoin"; "ethereum"]%string) H) E).
  - apply (proj1 (run_pipeline_outcomes stable_sort Qsqrt6 (fun _ => failing_api)
                    ["bitcoin"; "ethereum"]%string)).
    + intros n c _; left; reflexivity.
    + intros n c _; reflexivity.
  - exact (proj2 (run_pipeline_outcomes stable_sort Qsqrt6 (fun _ => misaligned_api)
                    ["ethereum"; "bitcoin"]%string) M).
Defined.

(** The returned frame of [sample_frame]: the repeated key is gone, the
    first of its two rows kept, and the rows of the two assets alternate
    in date order. *)
Example sample_frame_processed :
  map (fun fr => (date (base fr), coin (base fr), price (base fr)))
      (process_data stable_sort Qsqrt6 sample_frame)
  = [ (1%Z, "bitcoin", 100%Q); (1%Z, "ethereum", 10%Q); (2%Z, "bitcoin", 110%Q);
      (2%Z, "ethereum", 0%Q); (3%Z, "bitcoin", 121%Q); (3%Z, "ethereum", 5%Q);
      (4%Z, "ethereum", 6%Q) ]%string.
Proof. vm_compute; reflexivity. Qed.

(** The derived columns of the ethereum rows of [sample_frame], whose
    prices are 10, 0, 5, 6. *)
Example sample_ethereum_columns :
  Forall2 veq (map daily_return sample_ethereum) [NaN; Fin (-1); PInf; Fin (1 # 5)] /\
  Forall2 veq (map cumulative_return sample_ethereum) [NaN; Fin 0; NaN; NaN] /\
  Forall2 veq (map ma_7 sample_ethereum) [Fin 10; Fin 5; Fin 5; Fin (21 # 4)] /\
  map (fun fr => is_finite (volatility_30d fr)) sample_ethereum
  = [false; false; false; true].
Proof. repeat split; vm_compute; repeat constructor. Qed.

(** * Further properties of [process_data] *)

(** ** What the rows of one asset depend on *)

Lemma coin_rows_drop_duplicates c df :
  coin_rows c (drop_duplicates df) = drop_duplicates (coin_rows c df).
Proof.
  unfold coin_rows.
  now rewrite (drop_duplicates_filter (fun x => String.eqb x c)).
Qed.

Lemma drop_duplicates_NoDup_id df :
  NoDup (map key df) -> drop_duplicates df = df.
Proof.
  induction df as [|r df IH]; [reflexivity|]; simpl; intros ND.
  inversion ND as [|? ? Hnin ND']; subst.
  rewrite drop_duplicates_cons, (IH ND'); f_equal.
  apply forallb_filter_id, forallb_forall; intros x Hx.
  unfold other_key; destruct (key_eqb (key x) (key r)) eqn:E; [|reflexivity].
  apply key_eqb_eq in E; exfalso; apply Hnin; rewrite <- E; now apply in_map.
Qed.

Lemma drop_duplicates_length df : length (drop_duplicates df) <= length df.
Proof.
  induction df as [|r df IH]; [reflexivity|].
  rewrite drop_duplicates_cons; simpl.
  pose proof (filter_length_le (other_key (key r)) (drop_duplicates df)); lia.
Qed.

Lemma filter_andb {A} (f g : A -> bool) l :
  filter (fun x => f x && g x) l = filter f (filter g l).
Proof.
  induction l as [|x l IH]; simpl; [reflexivity|].
  destruct (g x); simpl; rewrite ?andb_true_r, ?andb_false_r;
    [destruct (f x)|]; now rewrite IH.
Qed.

(** Rows put after a frame lose those whose key the frame has. *)
Lemma drop_duplicates_app df df' :
  drop_duplicates (df ++ df')
  = drop_duplicates df
    ++ filter (fun r => negb (existsb (key_eqb (key r)) (map key df)))
         (drop_duplicates df').
Proof.
  induction df as [|r df IH].
  - simpl; now rewrite filter_true.
  - change ((r :: df) ++ df') with (r :: (df ++ df')).
    rewrite (drop_duplicates_cons r (df ++ df')), (drop_duplicates_cons r df).
    rewrite IH, filter_app; cbn [app map existsb]; do 2 f_equal.
    rewrite <- filter_andb; apply filter_ext; intros x.
    unfold other_key; rewrite negb_orb; reflexivity.
Qed.

Section Dependence.

Variables sort1 sort2 : list Row -> list Row.
Variable sqrt : Q -> Q.
Hypothesis sort1_sorts : sorts_by_date sort1.
Hypothesis sort2_sorts : sorts_by_date sort2.

(** The rows of an asset in the sorted frame are fixed by the set of its
    rows that survive [drop_duplicates]. *)
Lemma coin_rows_sorted_frame df df' c :
  Permutation (coin_rows c (drop_duplicates df)) (coin_rows c (drop_duplicates df')) ->
  coin_rows c (sorted_frame sort1 df) = coin_rows c (sorted_frame sort2 df').
Proof.
  intros P.
  assert (P1 := Permutation_filter (fun r => String.eqb (coin r) c) _ _
                  (sorted_frame_perm sort1 sort1_sorts df)).
  assert (P2 := Permutation_filter (fun r => String.eqb (coin r) c) _ _
                  (sorted_frame_perm sort2 sort2_sorts df')).
  apply sorted_by_date_unique.
  - apply StronglySorted_filter, sorted_frame_sorted, sort1_sorts.
  - apply StronglySorted_filter, sorted_frame_sorted, sort2_sorts.
  - eapply Permutation_trans; [apply Permutation_sym, P1|].
    eapply Permutation_trans; [exact P|exact P2].
  - apply (Permutation_NoDup (Permutation_map date P1)).
    apply NoDup_dates_of_asset, drop_duplicates_NoDup.
Qed.

Lemma asset_frame_of_coin_rows df df' c :
  coin_rows c (sorted_frame sort1 df) = coin_rows c (sorted_frame sort2 df') ->
  asset_frame sort1 sqrt df c = asset_frame sort2 sqrt df' c.
Proof.
  intros E; unfold asset_frame.
  destruct (process_data_groups sort1 sqrt df c) as (Hb & Hr & H7 & H30 & Hv & Hc).
  destruct (process_data_groups sort2 sqrt df' c)
    as (Hb' & Hr' & H7' & H30' & Hv' & Hc').
  cbv zeta in *; rewrite E in *.
  apply feature_rows_ext; congruence.
Qed.

(** X1.  The rows of an asset in the returned frame do not depend on the
    sort: two functions that both return a date-sorted permutation give
    every asset the same rows, whatever they do with equal dates. *)
Theorem asset_frame_sort_independent df c :
  asset_frame sort1 sqrt df c = asset_frame sort2 sqrt df c.
Proof.
  apply asset_frame_of_coin_rows, coin_rows_sorted_frame, Permutation_refl.
Qed.

End Dependence.

Section Engine2.

Variable sort_values : list Row -> list Row.
Variable sqrt : Q -> Q.
Hypothesis sort_values_sorts : sorts_by_date sort_values.

(** A frame of one asset comes back whole as the rows of that asset. *)
Lemma asset_frame_single_coin df c :
  (forall r, In r df -> coin r = c) ->
  asset_frame sort_values sqrt df c = process_data sort_values sqrt df.
Proof.
  intros H; unfold asset_frame, asset_rows.
  apply forallb_filter_id, forallb_forall; intros fr Hfr.
  apply String.eqb_eq, H, drop_duplicates_In.
  apply (process_data_In sort_values sqrt sort_values_sorts); exact Hfr.
Qed.

Lemma asset_frame_coin_rows df df' c :
  coin_rows c df = coin_rows c df' ->
  asset_frame sort_values sqrt df c = asset_frame sort_values sqrt df' c.
Proof.
  intros E.
  apply (asset_frame_of_coin_rows sort_values sort_values sqrt).
  apply (coin_rows_sorted_frame sort_values sort_values); auto.
  rewrite !coin_rows_drop_duplicates, E; apply Permutation_refl.
Qed.

(** X2.  The rows of an asset in the returned frame are computed from the
    input rows of that asset alone, in their input order: two inputs with
    the same rows of the asset give it the same output rows, wherever the
    rows of other assets stand. *)
Theorem asset_frame_own_rows df df' c :
  coin_rows c df = coin_rows c df' ->
  asset_frame sort_values sqrt df c = asset_frame sort_values sqrt df' c.
Proof.
  intros E.
  assert (P : Permutation (coin_rows c (drop_duplicates df))
                (coin_rows c (drop_duplicates df')))
    by (rewrite !coin_rows_drop_duplicates, E; apply Permutation_refl).
  apply (asset_frame_of_coin_rows sort_values sort_values sqrt).
  now apply (coin_rows_sorted_frame sort_values sort_values).
Qed.

(** X3.  When no [(date, coin)] key repeats, the order of the input rows
    does not matter: every reordering of the input gives each asset the
    same output rows. *)
Theorem asset_frame_input_order df df' c :
  NoDup (map key df) -> Permutation df df' ->
  asset_frame sort_values sqrt df c = asset_frame sort_values sqrt df' c.
Proof.
  intros ND P.
  assert (ND' : NoDup (map key df'))
    by (apply (Permutation_NoDup (Permutation_map key P)); exact ND).
  apply (asset_frame_of_coin_rows sort_values sort_values sqrt).
  apply (coin_rows_sorted_frame sort_values sort_values); auto.
  rewrite !drop_duplicates_NoDup_id by assumption.
  now apply Permutation_filter.
Qed.

(** X4.  Running [process_data] on the rows of one asset alone returns
    exactly the rows that asset has in the frame returned for the whole
    input. *)
Theorem process_data_one_asset df c :
  process_data sort_values sqrt (coin_rows c df) = asset_frame sort_values sqrt df c.
Proof.
  rewrite <- (asset_frame_single_coin (coin_rows c df) c).
  - apply asset_frame_coin_rows; unfold coin_rows; apply filter_filter_same.
  - intros r Hr; apply filter_In in Hr; now apply String.eqb_eq.
Qed.

Lemma StronglySorted_le_lt l :
  StronglySorted Z.le l -> NoDup l -> StronglySorted Z.lt l.
Proof.
  induction 1 as [|a l Hs IH Ha]; intros ND; constructor;
    inversion ND as [|? ? Hnin ND']; subst; auto.
  rewrite Forall_forall in *; intros x Hx.
  specialize (Ha x Hx).
  assert (a <> x) by (intros ->; contradiction).
  lia.
Qed.

(** X5.  Within the rows of one asset in the returned frame the dates
    increase strictly: no two rows of an asset share a date. *)
Theorem asset_frame_dates_increase df c :
  StronglySorted Z.lt
    (map (fun fr => date (base fr)) (asset_frame sort_values sqrt df c)).
Proof.
  unfold asset_frame.
  destruct (process_data_groups sort_values sqrt df c) as (Hb & _); cbv zeta in Hb.
  rewrite <- (map_map base date), Hb.
  apply StronglySorted_le_lt.
  - apply StronglySorted_dates, StronglySorted_filter, sorted_frame_sorted.
    exact sort_values_sorts.
  - apply (Permutation_NoDup
             (Permutation_map date
                (Permutation_filter (fun r => String.eqb (coin r) c) _ _
                   (sorted_frame_perm sort_values sort_values_sorts df)))).
    apply NoDup_dates_of_asset, drop_duplicates_NoDup.
Qed.

(** X6.  The returned frame never has more rows than the input, and when
    no [(date, coin)] key repeats it has every input row, with its
    original columns, exactly once. *)
Theorem process_data_keeps_rows df :
  length (process_data sort_values sqrt df) <= length df /\
  (NoDup (map key df) -> Permutation df (map base (process_data sort_values sqrt df))).
Proof.
  destruct (process_data_columns sort_values sqrt df) as (Hb & _); cbv zeta in Hb.
  split.
  - rewrite <- (length_map base), Hb.
    rewrite <- (Permutation_length (sorted_frame_perm sort_values sort_values_sorts df)).
    apply drop_duplicates_length.
  - intros ND; rewrite Hb.
    rewrite <- (drop_duplicates_NoDup_id df ND) at 1.
    apply sorted_frame_perm, sort_values_sorts.
Qed.

(** X7.  Rows whose key an earlier part of the input already has change
    nothing, wherever they stand after it: the returned frame is the
    frame of the input without them.  So a frame fed twice gives the
    frame of one copy. *)
Theorem process_data_ignores_known_keys df dups rest :
  (forall r, In r dups -> key_occurs df r) ->
  process_data sort_values sqrt (df ++ dups ++ rest)
  = process_data sort_values sqrt (df ++ rest).
Proof.
  intros H.
  assert (E : drop_duplicates (df ++ dups ++ rest) = drop_duplicates (df ++ rest)).
  { rewrite (drop_duplicates_app df (dups ++ rest)), (drop_duplicates_app df rest).
    rewrite (drop_duplicates_app dups rest), filter_app; f_equal.
    rewrite (filter_ext_in _ (fun _ => false) (drop_duplicates dups)), filter_false.
    - cbn [app]; rewrite filter_comm; apply filter_filter_other.
      intros x Hx; apply negb_true_iff in Hx; apply negb_true_iff.
      destruct (existsb (key_eqb (key x)) (map key dups)) eqn:E; [|reflexivity].
      apply existsb_key_In, in_map_iff in E; destruct E as (d & Hk & Hd).
      specialize (H d Hd); unfold key_occurs in H; rewrite Hk in H.
      apply existsb_key_In in H; congruence.
    - intros r Hr; apply drop_duplicates_In in Hr.
      apply negb_false_iff, existsb_key_In, H, Hr. }
  unfold process_data; now rewrite E.
Qed.

(** X8.  Running [process_data] again on the original columns of its own
    output gives every asset the rows it had. *)
Theorem process_data_again df c :
  asset_frame sort_values sqrt (map base (process_data sort_values sqrt df)) c
  = asset_frame sort_values sqrt df c.
Proof.
  destruct (process_data_columns sort_values sqrt df) as (Hb & _); cbv zeta in Hb.
  rewrite Hb.
  apply (asset_frame_of_coin_rows sort_values sort_values sqrt).
  apply (coin_rows_sorted_frame sort_values sort_values); auto.
  assert (P := sorted_frame_perm sort_values sort_values_sorts df).
  rewrite (drop_duplicates_NoDup_id (sorted_frame sort_values df)).
  - apply Permutation_filter, Permutation_sym, P.
  - apply (Permutation_NoDup (Permutation_map key P)), drop_duplicates_NoDup.
Qed.

End Engine2.

(** ** Moving averages of one asset *)

Section Engine3.

Variable sort_values : list Row -> list Row.
Variable sqrt : Q -> Q.

(** X11.  On the first seven rows of an asset the two moving averages are
    the same number, both windows holding all the rows so far; on the
    first row of an asset that number is the price of the row. *)
Theorem moving_averages_agree_at_start df c i fr :
  nth_error (asset_frame sort_values sqrt df c) i = Some fr ->
  i <= 6 ->
  ma_7 fr = ma_30 fr /\ (i = 0 -> veq (ma_7 fr) (Fin (price (base fr)))).
Proof.
  unfold asset_frame; intros Hfr Hi6.
  destruct (asset_rows_cells sort_values sqrt df c i fr Hfr)
    as (Hi & _ & Hp & _ & H7 & H30 & _); cbv zeta in *.
  rewrite rolling_mean_rows in H7, H30 by (exact Hi || lia).
  rewrite H7, H30.
  replace (i - (7 - 1)) with 0 by lia; replace (i - (30 - 1)) with 0 by lia.
  split; [reflexivity|].
  intros ->; unfold rows_between; cbn [seq map Nat.sub]; rewrite Hp.
  unfold veq, Qmean, Qsum; cbn [fold_right length].
  change (Qnat 1) with 1%Q; field.
Qed.

End Engine3.

(** ** A newer observation and the earlier rows *)

Lemma firstn_from_nth {X} (d : X) (l1 l2 : list X) :
  length l1 <= length l2 ->
  (forall i, i < length l1 -> nth i l2 d = nth i l1 d) ->
  firstn (length l1) l2 = l1.
Proof.
  intros Hlen H; apply (nth_ext _ _ d d).
  - rewrite length_firstn; lia.
  - intros i Hi; rewrite length_firstn in Hi.
    rewrite nth_firstn.
    replace (i <? length l1) with true by (symmetry; apply Nat.ltb_lt; lia).
    apply H; lia.
Qed.

Lemma window_app {X} w i (xs ys : list X) :
  i < length xs -> window w i (xs ++ ys) = window w i xs.
Proof.
  intros Hi; unfold window.
  rewrite skipn_app, firstn_app, length_skipn.
  replace (S i - (S i - w) - (length xs - (S i - w))) with 0 by lia.
  now rewrite firstn_0, app_nil_r.
Qed.

(** The per-group computations never look ahead: on the rows of a group
    they give what they give on the group with further rows behind it. *)
Lemma pct_change_app (ps qs : list Q) :
  firstn (length ps) (pct_change (map Fin (ps ++ qs))) = pct_change (map Fin ps).
Proof.
  rewrite <- (length_map Fin ps), <- (length_pct_change (map Fin ps)).
  apply (firstn_from_nth NaN).
  - rewrite !length_pct_change, !length_map, length_app; lia.
  - intros i Hi; rewrite length_pct_change, length_map in Hi.
    rewrite !pct_change_nth by (rewrite ?length_app; lia).
    destruct i as [|j]; [reflexivity|].
    rewrite !app_nth1 by lia; reflexivity.
Qed.

Lemma rolling_app w agg xs ys :
  firstn (length xs) (rolling w agg (xs ++ ys)) = rolling w agg xs.
Proof.
  rewrite <- (length_rolling w agg xs).
  apply (firstn_from_nth NaN).
  - rewrite !length_rolling, length_app; lia.
  - intros i Hi; rewrite length_rolling in Hi.
    rewrite !rolling_nth by (rewrite ?length_app; lia).
    unfold prep_values; rewrite map_app, window_app; [reflexivity|].
    now rewrite length_map.
Qed.

Lemma growth_upto_app rs ss i :
  i < length rs -> growth_upto (rs ++ ss) i = growth_upto rs i.
Proof.
  intros Hi; unfold growth_upto.
  rewrite firstn_app.
  replace (S i - length rs) with 0 by lia.
  now rewrite firstn_0, app_nil_r.
Qed.

Lemma cumprod_app rs ss :
  firstn (length rs) (cumprod (map (vadd (Fin 1)) (rs ++ ss)))
  = cumprod (map (vadd (Fin 1)) rs).
Proof.
  rewrite <- (length_map (vadd (Fin 1)) rs), <- (length_cumprod (map (vadd (Fin 1)) rs)).
  apply (firstn_from_nth NaN).
  - rewrite !length_cumprod, !length_map, length_app; lia.
  - intros i Hi; rewrite length_cumprod, length_map in Hi.
    rewrite !cumprod_nth by (rewrite ?length_app; lia).
    now rewrite app_nth1, growth_upto_app by lia.
Qed.

Lemma StronglySorted_app_last {A} (R : A -> A -> Prop) l x :
  StronglySorted R l -> Forall (fun y => R y x) l -> StronglySorted R (l ++ [x]).
Proof.
  induction 1 as [|a l Hs IH Ha]; intros Hx; simpl.
  - repeat constructor.
  - inversion Hx; subst; constructor; auto.
    apply Forall_app; split; [exact Ha|repeat constructor; assumption].
Qed.

Section Engine4.

Variable sort_values : list Row -> list Row.
Variable sqrt : Q -> Q.
Hypothesis sort_values_sorts : sorts_by_date sort_values.

Lemma coin_rows_with_newer_row df r :
  (forall x, In x df -> coin x = coin r -> (date x < date r)%Z) ->
  coin_rows (coin r) (sorted_frame sort_values (df ++ [r]))
  = coin_rows (coin r) (sorted_frame sort_values df) ++ [r].
Proof.
  intros Hnew.
  assert (Hdd : coin_rows (coin r) (drop_duplicates (df ++ [r]))
                = coin_rows (coin r) (drop_duplicates df) ++ [r]).
  { rewrite drop_duplicates_app; unfold coin_rows; rewrite filter_app.
    change (drop_duplicates [r]) with [r]; cbn [filter].
    destruct (existsb (key_eqb (key r)) (map key df)) eqn:E.
    - apply existsb_key_In, in_map_iff in E; destruct E as (x & Hk & Hx).
      unfold key in Hk; inversion Hk as [[Hd Hc]].
      specialize (Hnew x Hx Hc); lia.
    - cbn [negb filter]; now rewrite String.eqb_refl. }
  assert (P := Permutation_filter (fun x => String.eqb (coin x) (coin r)) _ _
                 (sorted_frame_perm sort_values sort_values_sorts df)).
  assert (P' := Permutation_filter (fun x => String.eqb (coin x) (coin r)) _ _
                  (sorted_frame_perm sort_values sort_values_sorts (df ++ [r]))).
  fold (coin_rows (coin r) (drop_duplicates df)) in P.
  fold (coin_rows (coin r) (sorted_frame sort_values df)) in P.
  fold (coin_rows (coin r) (drop_duplicates (df ++ [r]))) in P'.
  fold (coin_rows (coin r) (sorted_frame sort_values (df ++ [r]))) in P'.
  apply sorted_by_date_unique.
  - apply StronglySorted_filter, sorted_frame_sorted, sort_values_sorts.
  - apply StronglySorted_app_last.
    + apply StronglySorted_filter, sorted_frame_sorted, sort_values_sorts.
    + apply Forall_forall; intros x Hx.
      apply (Permutation_in x (Permutation_sym P)) in Hx.
      apply filter_In in Hx; destruct Hx as [Hx Hc].
      apply drop_duplicates_In in Hx; apply String.eqb_eq in Hc.
      specialize (Hnew x Hx Hc); unfold date_le; lia.
  - eapply Permutation_trans; [apply Permutation_sym, P'|].
    rewrite Hdd; now apply Permutation_app_tail.
  - apply (Permutation_NoDup (Permutation_map date P')).
    apply NoDup_dates_of_asset, drop_duplicates_NoDup.
Qed.

(** X13.  No derived column looks ahead.  When a row is put after the
    input whose date is later than every date the input has for its
    asset, the asset gets one more output row, the last, and its earlier
    output rows are as they were without the new row. *)
Theorem no_look_ahead df r :
  (forall x, In x df -> coin x = coin r -> (date x < date r)%Z) ->
  length (asset_frame sort_values sqrt (df ++ [r]) (coin r))
  = S (length (asset_frame sort_values sqrt df (coin r))) /\
  firstn (length (asset_frame sort_values sqrt df (coin r)))
    (asset_frame sort_values sqrt (df ++ [r]) (coin r))
  = asset_frame sort_values sqrt df (coin r) /\
  map base (skipn (length (asset_frame sort_values sqrt df (coin r)))
              (asset_frame sort_values sqrt (df ++ [r]) (coin r))) = [r].
Proof.
  intros Hnew; unfold asset_frame.
  destruct (process_data_groups sort_values sqrt df (coin r))
    as (Hb & Hr & H7 & H30 & Hv & Hc).
  destruct (process_data_groups sort_values sqrt (df ++ [r]) (coin r))
    as (Hb' & Hr' & H7' & H30' & Hv' & Hc').
  cbv zeta in *; rewrite (coin_rows_with_newer_row df r Hnew) in *.
  set (g := asset_rows (coin r) (process_data sort_values sqrt df)) in *.
  set (g' := asset_rows (coin r) (process_data sort_values sqrt (df ++ [r]))) in *.
  set (rows := coin_rows (coin r) (sorted_frame sort_values df)) in *.
  assert (Ln : length g = length rows) by (rewrite <- Hb; now rewrite length_map).
  assert (Ln' : length g' = S (length rows))
    by (rewrite <- (length_map base), Hb', length_app; simpl; lia).
  rewrite map_app in *; cbn [map] in *.
  set (ps := map (fun x => price x) rows) in *.
  assert (Ep : map (fun x => Fin (price x)) rows ++ [Fin (price r)]
               = map Fin (ps ++ [price r]))
    by (unfold ps; rewrite map_app, map_map; reflexivity).
  assert (Ep0 : map (fun x => Fin (price x)) rows = map Fin ps)
    by (unfold ps; rewrite map_map; reflexivity).
  rewrite Ep in *; rewrite Ep0 in *.
  assert (Lps : length ps = length rows) by (unfold ps; now rewrite length_map).
  assert (Er : pct_change (map Fin (ps ++ [price r]))
               = pct_change (map Fin ps)
                 ++ skipn (length ps) (pct_change (map Fin (ps ++ [price r])))).
  { rewrite <- (pct_change_app ps [price r]) at 1.
    symmetry; apply firstn_skipn. }
  assert (Lr : length (pct_change (map Fin ps)) = length rows)
    by (rewrite length_pct_change, length_map; exact Lps).
  split; [rewrite Ln', Ln; reflexivity|split].
  - rewrite Ln; apply feature_rows_ext; rewrite <- ?firstn_map.
    + rewrite Hb', Hb.
      rewrite firstn_app, Nat.sub_diag, firstn_0, app_nil_r.
      apply firstn_all.
    + rewrite Hr', Hr, <- Lps; apply pct_change_app.
    + rewrite H7', H7, <- Lps, <- (length_map Fin ps), map_app.
      apply rolling_app.
    + rewrite H30', H30, <- Lps, <- (length_map Fin ps), map_app.
      apply rolling_app.
    + rewrite Hv', Hv, Er, <- Lr; apply rolling_app.
    + rewrite Hc', Hc, Er, <- Lr; apply cumprod_app.
  - rewrite Ln, <- skipn_map, Hb'.
    rewrite skipn_app, Nat.sub_diag, skipn_all; reflexivity.
Qed.

End Engine4.

(** * Further properties of [fetch_historical_data] and [run_pipeline] *)

Lemma payload_rows_In c p v m r :
  In r (payload_rows c p v m) -> coin r = c /\ In (date r, price r) p.
Proof.
  unfold payload_rows; revert v m.
  induction p as [|e p IH]; intros [|x v] [|y m]; simpl; try contradiction.
  intros [<-|H]; simpl.
  - split; [reflexivity|left; now destruct e].
  - destruct (IH v m H); auto.
Qed.

Lemma payload_rows_columns c p v m :
  same_length p v m = true ->
  map date (payload_rows c p v m) = map fst p /\
  map price (payload_rows c p v m) = map snd p /\
  map volume (payload_rows c p v m) = map snd v /\
  map market_cap (payload_rows c p v m) = map snd m.
Proof.
  unfold same_length, payload_rows; intros H.
  apply andb_true_iff in H; destruct H as [Hv Hm].
  apply Nat.eqb_eq in Hv, Hm; revert v m Hv Hm.
  induction p as [|e p IH]; intros [|x v] [|y m] Hv Hm; simpl in *;
    try discriminate; [repeat split|].
  destruct (IH v m) as (H1 & H2 & H3 & H4); [lia|lia|].
  repeat split; f_equal; assumption.
Qed.

(** X14.  The frame that [fetch_historical_data] returns has one row for
    each entry of the price series, in order: its dates and prices are
    those of the price series, its volumes and market caps the values of
    the other two series, and every row carries the asset asked for.  The
    timestamps of the volume and market-cap series are not looked at. *)
Theorem fetch_historical_data_frame api c df :
  fetch_historical_data api c = Returned (Some df) ->
  exists p v m,
    api c = Payload p v m /\
    map date df = map fst p /\ map price df = map snd p /\
    map volume df = map snd v /\ map market_cap df = map snd m /\
    Forall (fun r => coin r = c) df.
Proof.
  intros H.
  destruct (fetch_historical_data_cases api c)
    as [[_ E]|[E|[Hs (p & v & m & Ha & E)]]];
    rewrite E in H; try discriminate.
  inversion H; subst df; exists p, v, m.
  unfold fetch_returns_frame in Hs; rewrite Ha in Hs; destruct Hs as [Hs _].
  destruct (payload_rows_columns c p v m Hs) as (H1 & H2 & H3 & H4).
  repeat split; auto.
  apply Forall_forall; intros r Hr; now apply payload_rows_In in Hr.
Qed.

Lemma in_fetched_frames api n coins r :
  In r (concat (fetched_frames_from api n coins)) ->
  exists k c p v m,
    nth_error coins k = Some c /\ api (n + k) c = Payload p v m /\
    In r (payload_rows c p v m).
Proof.
  intros H; apply in_concat in H; destruct H as (f & Hf & Hr).
  apply in_fetched_frames_from in Hf.
  destruct Hf as (k & c & p & v & m & Hk & Ha & ->).
  exists k, c, p, v, m; auto.
Qed.

(** X16.  [run_pipeline] returns [None] exactly when every request of the
    run fails with a request exception. *)
Theorem run_pipeline_none_iff sort_values sqrt api coins :
  run_pipeline sort_values sqrt api coins = Returned None
  <-> forall n c, requested coins n c -> fetch_fails (api n) c.
Proof.
  unfold run_pipeline, requested; split.
  - destruct (fetch_all api 0 coins []) as [[|f l]|] eqn:E; try discriminate.
    intros _ n c Hc.
    assert (Hn : fetch_historical_data (api n) c <> Raised).
    { intros Hr.
      assert (Hall : fetch_all api 0 coins [] = Raised)
        by (apply fetch_all_raised; exists n, c; auto).
      congruence. }
    apply fetch_all_returned in E; simpl in E.
    destruct (fetch_historical_data_cases (api n) c)
      as [[Hf _]|[Hr|[_ (p & v & m & Ha & _)]]]; [exact Hf|contradiction|].
    exfalso.
    assert (Hin : In (payload_rows c p v m) (fetched_frames_from api 0 coins))
      by (apply in_fetched_frames_from; exists n, c, p, v, m; auto).
    rewrite <- E in Hin; contradiction.
  - intros H.
    rewrite (fetch_all_frames api 0 coins []) by (intros; left; auto).
    now rewrite (fetched_frames_none api 0 coins H).
Qed.

Lemma run_pipeline_table sort_values sqrt api coins table :
  run_pipeline sort_values sqrt api coins = Returned (Some table) ->
  (forall n c, nth_error coins n = Some c ->
     fetch_historical_data (api n) c <> Raised) /\
  table = process_data sort_values sqrt (concat (fetched_frames api coins)).
Proof.
  unfold run_pipeline, fetched_frames; intros H.
  destruct (fetch_all api 0 coins []) as [all|] eqn:E; [|discriminate].
  split.
  - intros n c Hc Hr.
    assert (Hall : fetch_all api 0 coins [] = Raised)
      by (apply fetch_all_raised; exists n, c; auto).
    congruence.
  - apply fetch_all_returned in E; simpl in E; subst all.
    destruct (fetched_frames_from api 0 coins) as [|f l]; [discriminate|].
    now inversion H.
Qed.

(** X17.  Every row of the frame that [run_pipeline] returns comes from a
    request of the run, for a configured asset, that the API answered
    with three series of one length; the row carries that asset, and its
    date and price are an entry of the price series of that answer. *)
Theorem run_pipeline_rows_origin sort_values sqrt api coins table fr :
  sorts_by_date sort_values ->
  run_pipeline sort_values sqrt api coins = Returned (Some table) ->
  In fr table ->
  In (coin (base fr)) coins /\
  exists n,
    requested coins n (coin (base fr)) /\
    fetch_succeeds (api n) (coin (base fr)) /\
    exists p v m,
      api n (coin (base fr)) = Payload p v m /\
      In (date (base fr), price (base fr)) p.
Proof.
  intros Hsort Hrun Hfr.
  destruct (run_pipeline_table sort_values sqrt api coins table Hrun) as [Hn ->].
  apply (process_data_In sort_values sqrt Hsort) in Hfr.
  apply drop_duplicates_In, in_fetched_frames in Hfr.
  destruct Hfr as (n & c & p & v & m & Hc & Ha & Hr).
  apply payload_rows_In in Hr; destruct Hr as [Hcoin Hp].
  rewrite Hcoin; split; [now apply nth_error_In in Hc|].
  exists n; split; [exact Hc|split].
  - destruct (fetch_historical_data_cases (api n) c)
      as [[Hf _]|[Hr|[Hs _]]].
    + unfold fetch_fails in Hf; simpl in Ha; congruence.
    + now apply Hn in Hr.
    + unfold fetch_returns_frame in Hs; unfold fetch_succeeds.
      destruct (api n c); tauto.
  - exists p, v, m; auto.
Qed.

Lemma payload_rows_dates_NoDup c p v m :
  NoDup (map fst p) -> NoDup (map date (payload_rows c p v m)).
Proof.
  revert v m; induction p as [|e p IH]; intros v m ND.
  - destruct v, m; constructor.
  - destruct v as [|x v], m as [|y m]; try constructor.
    + inversion ND as [|? ? Hnin _]; subst.
      intros H; apply in_map_iff in H; destruct H as (r & Hd & Hr).
      apply (payload_rows_In c p v m r) in Hr; destruct Hr as [_ Hr].
      apply Hnin; simpl in Hd; rewrite <- Hd.
      apply (in_map fst) in Hr; exact Hr.
    + inversion ND; subst; now apply IH.
Qed.

Lemma fetched_frames_keys_NoDup api n coins :
  NoDup coins ->
  (forall k c p v m, nth_error coins k = Some c ->
     api (n + k) c = Payload p v m -> NoDup (map fst p)) ->
  NoDup (map key (concat (fetched_frames_from api n coins))).
Proof.
  revert n; induction coins as [|c coins IH]; intros n ND Hts; [constructor|].
  inversion ND as [|? ? Hnin ND']; subst.
  assert (IH' : NoDup (map key (concat (fetched_frames_from api (S n) coins)))).
  { apply IH; [exact ND'|].
    intros k x p v m Hk Ha; apply (Hts (S k) x p v m); [exact Hk|].
    rewrite Nat.add_succ_r; exact Ha. }
  cbn [fetched_frames_from].
  destruct (api n c) as [p v m| |] eqn:E; [|exact IH'|exact IH'].
  cbn [app concat]; rewrite map_app.
  apply NoDup_app; [|exact IH'|].
  - apply (NoDup_map_inv fst); rewrite map_map.
    apply (payload_rows_dates_NoDup c p v m), (Hts 0 c p v m); [reflexivity|].
    rewrite Nat.add_0_r; exact E.
  - intros k Hk Hk'.
    apply in_map_iff in Hk; destruct Hk as (r & <- & Hr).
    apply in_map_iff in Hk'; destruct Hk' as (r' & Hkey & Hr').
    apply payload_rows_In in Hr; destruct Hr as [Hc _].
    apply in_fetched_frames in Hr'.
    destruct Hr' as (k' & c' & p' & v' & m' & Hc' & _ & Hr').
    apply payload_rows_In in Hr'; destruct Hr' as [Hcoin' _].
    apply nth_error_In in Hc'.
    unfold key in Hkey; inversion Hkey as [[Hdd Hcc]].
    apply Hnin; congruence.
Qed.

(** X18.  When the configured assets are pairwise different and no
    timestamp repeats within the price series of an answer,
    [run_pipeline] drops nothing: the frame it returns has every fetched
    record exactly once, with its original columns.  Records of different
    assets never count as duplicates of each other, even with equal
    timestamps. *)
Theorem run_pipeline_keeps_all_records sort_values sqrt api coins table :
  sorts_by_date sort_values ->
  NoDup coins ->
  (forall n c p v m, requested coins n c -> api n c = Payload p v m ->
     NoDup (map fst p)) ->
  run_pipeline sort_values sqrt api coins = Returned (Some table) ->
  Permutation (concat (fetched_frames api coins)) (map base table).
Proof.
  intros Hsort ND Hts Hrun.
  destruct (run_pipeline_table sort_values sqrt api coins table Hrun) as [_ ->].
  destruct (process_data_columns sort_values sqrt (concat (fetched_frames api coins)))
    as (Hb & _); cbv zeta in Hb; rewrite Hb.
  rewrite <- (drop_duplicates_NoDup_id (concat (fetched_frames api coins))) at 1
    by (apply (fetched_frames_keys_NoDup api 0 coins ND Hts)).
  apply sorted_frame_perm, Hsort.
Qed.

Lemma coin_rows_payload_other c c' p v m :
  c' <> c -> coin_rows c (payload_rows c' p v m) = [].
Proof.
  intros Hne; unfold coin_rows.
  rewrite (filter_ext_in _ (fun _ => false)); [apply filter_false|].
  intros r Hr; apply payload_rows_In in Hr; destruct Hr as [-> _].
  now apply String.eqb_neq.
Qed.

Lemma coin_rows_payload_same c p v m :
  coin_rows c (payload_rows c p v m) = payload_rows c p v m.
Proof.
  unfold coin_rows; apply forallb_filter_id, forallb_forall.
  intros r Hr; apply payload_rows_In in Hr; destruct Hr as [-> _].
  apply String.eqb_refl.
Qed.

(** The rows of an asset among all the fetched frames are the frames of
    the requests for that asset, in request order. *)
Lemma coin_rows_fetched_frames api n coins c :
  coin_rows c (concat (fetched_frames_from api n coins))
  = concat (fetched_frames_from (only_asset c api) n coins).
Proof.
  revert n; induction coins as [|c' coins IH]; intros n; [reflexivity|].
  cbn [fetched_frames_from]; rewrite !concat_app.
  unfold coin_rows at 1; rewrite filter_app.
  fold (coin_rows c (concat (fetched_frames_from api (S n) coins))); rewrite IH.
  f_equal; unfold only_asset at 1.
  destruct (String.eqb c' c) eqn:E.
  - apply String.eqb_eq in E; subst c'.
    destruct (api n c) as [p v m| |]; [|reflexivity|reflexivity].
    cbn [concat]; rewrite !app_nil_r.
    apply coin_rows_payload_same.
  - apply String.eqb_neq in E.
    destruct (api n c') as [p v m| |]; [|reflexivity|reflexivity].
    cbn [concat]; rewrite app_nil_r.
    now apply coin_rows_payload_other.
Qed.

Lemma only_asset_rows api n coins c r :
  In r (concat (fetched_frames_from (only_asset c api) n coins)) -> coin r = c.
Proof.
  intros H; apply in_fetched_frames in H.
  destruct H as (k & c' & p & v & m & _ & Ha & Hr).
  apply payload_rows_In in Hr; destruct Hr as [-> _].
  unfold only_asset in Ha.
  destruct (String.eqb c' c) eqn:E; [now apply String.eqb_eq|discriminate].
Qed.

Lemma only_asset_not_listed api n coins c :
  ~ In c coins -> fetched_frames_from (only_asset c api) n coins = [].
Proof.
  intros Hnin; apply fetched_frames_none.
  intros k c' Hk; unfold fetch_fails, only_asset.
  destruct (String.eqb c' c) eqn:E; [|reflexivity].
  apply String.eqb_eq in E; subst c'.
  now apply nth_error_In in Hk.
Qed.

Lemma only_asset_listed_once api n coins k c p v m :
  NoDup coins -> nth_error coins k = Some c -> api (n + k) c = Payload p v m ->
  fetched_frames_from (only_asset c api) n coins = [payload_rows c p v m].
Proof.
  revert n k; induction coins as [|c' coins IH]; intros n k ND Hk Ha;
    [destruct k; discriminate|].
  inversion ND as [|? ? Hnin ND']; subst.
  cbn [fetched_frames_from]; destruct k as [|k]; simpl in Hk.
  - inversion Hk; subst c'.
    rewrite Nat.add_0_r in Ha.
    unfold only_asset at 1; rewrite String.eqb_refl, Ha.
    now rewrite only_asset_not_listed.
  - assert (Hne : c' <> c)
      by (intros ->; apply Hnin; now apply nth_error_In in Hk).
    unfold only_asset at 1.
    apply String.eqb_neq in Hne; rewrite Hne; cbn [app].
    apply (IH (S n) k ND' Hk).
    rewrite Nat.add_succ_r in Ha; exact Ha.
Qed.

(** X19.  In the frame that [run_pipeline] returns, the rows of an asset
    are the frame that [process_data] gives on what the requests for that
    asset fetched, taken alone: the answers for the other assets and the
    place of the asset among the configured ones change nothing.  For an
    asset configured once, among assets that are pairwise different, that
    is [process_data] of its one fetched frame. *)
Theorem run_pipeline_per_asset sort_values sqrt api coins table c :
  sorts_by_date sort_values ->
  run_pipeline sort_values sqrt api coins = Returned (Some table) ->
  asset_rows c table
  = process_data sort_values sqrt (concat (fetched_frames (only_asset c api) coins)) /\
  (forall n p v m,
     NoDup coins -> requested coins n c -> api n c = Payload p v m ->
     asset_rows c table = process_data sort_values sqrt (payload_rows c p v m)).
Proof.
  intros Hsort Hrun.
  destruct (run_pipeline_table sort_values sqrt api coins table Hrun) as [_ ->].
  assert (Hown : asset_rows c (process_data sort_values sqrt
                                 (concat (fetched_frames api coins)))
                 = process_data sort_values sqrt
                     (concat (fetched_frames (only_asset c api) coins))).
  { unfold fetched_frames.
    rewrite <- (asset_frame_single_coin sort_values sqrt Hsort
                  (concat (fetched_frames_from (only_asset c api) 0 coins)) c)
      by (intros r; apply only_asset_rows).
    apply (asset_frame_coin_rows sort_values sqrt Hsort).
    rewrite coin_rows_fetched_frames.
    symmetry; apply forallb_filter_id, forallb_forall.
    intros r Hr; apply String.eqb_eq; revert Hr; apply only_asset_rows. }
  split; [exact Hown|].
  intros n p v m ND Hn Ha; rewrite Hown; unfold fetched_frames.
  rewrite (only_asset_listed_once api 0 coins n c p v m ND Hn Ha).
  cbn [concat]; now rewrite app_nil_r.
Qed.

(** * The further properties on sample frames *)

Lemma NoDup_keys_by_run df : drop_duplicates df = df -> NoDup (map key df).
Proof. intros E; rewrite <- E; apply drop_duplicates_NoDup. Qed.

Ltac by_running := vm_compute; reflexivity.

Lemma asset_frame_sort_independent_witness :
  sorts_by_date stable_sort /\ sorts_by_date tie_reversing_sort /\
  asset_frame stable_sort Qsqrt6 sample_frame "ethereum"
  = asset_frame tie_reversing_sort Qsqrt6 sample_frame "ethereum".
Proof.
  split; [exact stable_sort_sorts|split; [exact tie_reversing_sort_sorts|]].
  exact (asset_frame_sort_independent stable_sort tie_reversing_sort Qsqrt6
           stable_sort_sorts tie_reversing_sort_sorts sample_frame "ethereum").
Defined.

Lemma asset_frame_own_rows_witness :
  sorts_by_date stable_sort /\
  coin_rows "bitcoin" sample_frame = coin_rows "bitcoin" sample_frame_by_asset /\
  asset_frame stable_sort Qsqrt6 sample_frame "bitcoin"
  = asset_frame stable_sort Qsqrt6 sample_frame_by_asset "bitcoin".
Proof.
  assert (E : coin_rows "bitcoin" sample_frame
              = coin_rows "bitcoin" sample_frame_by_asset) by by_running.
  split; [exact stable_sort_sorts|split; [exact E|]].
  exact (asset_frame_own_rows stable_sort Qsqrt6 stable_sort_sorts sample_frame
           sample_frame_by_asset "bitcoin" E).
Defined.

Lemma asset_frame_input_order_witness :
  sorts_by_date stable_sort /\
  NoDup (map key distinct_frame) /\
  Permutation distinct_frame (rev distinct_frame) /\
  asset_frame stable_sort Qsqrt6 distinct_frame "ethereum"
  = asset_frame stable_sort Qsqrt6 (rev distinct_frame) "ethereum".
Proof.
  assert (ND : NoDup (map key distinct_frame))
    by (apply NoDup_keys_by_run; by_running).
  assert (P : Permutation distinct_frame (rev distinct_frame))
    by apply Permutation_rev.
  split; [exact stable_sort_sorts|split; [exact ND|split; [exact P|]]].
  exact (asset_frame_input_order stable_sort Qsqrt6 stable_sort_sorts distinct_frame
           (rev distinct_frame) "ethereum" ND P).
Defined.

Lemma process_data_one_asset_witness :
  sorts_by_date stable_sort /\
  process_data stable_sort Qsqrt6 (coin_rows "bitcoin" sample_frame) = sample_bitcoin.
Proof.
  split; [exact stable_sort_sorts|].
  exact (process_data_one_asset stable_sort Qsqrt6 stable_sort_sorts sample_frame
           "bitcoin").
Defined.

Lemma asset_frame_dates_increase_witness :
  sorts_by_date stable_sort /\
  StronglySorted Z.lt (map (fun fr => date (base fr)) sample_ethereum).
Proof.
  split; [exact stable_sort_sorts|].
  exact (asset_frame_dates_increase stable_sort Qsqrt6 stable_sort_sorts sample_frame
           "ethereum").
Defined.

Lemma process_data_keeps_rows_witness :
  sorts_by_date stable_sort /\
  NoDup (map key distinct_frame) /\
  length (process_data stable_sort Qsqrt6 sample_frame) <= length sample_frame /\
  Permutation distinct_frame (map base (process_data stable_sort Qsqrt6 distinct_frame)).
Proof.
  assert (ND : NoDup (map key distinct_frame))
    by (apply NoDup_keys_by_run; by_running).
  split; [exact stable_sort_sorts|split; [exact ND|split]].
  - exact (proj1 (process_data_keeps_rows stable_sort Qsqrt6 stable_sort_sorts
                    sample_frame)).
  - exact (proj2 (process_data_keeps_rows stable_sort Qsqrt6 stable_sort_sorts
                    distinct_frame) ND).
Defined.

Lemma process_data_ignores_known_keys_witness :
  (forall r, In r duplicate_pair -> key_occurs sample_frame r) /\
  process_data stable_sort Qsqrt6 (sample_frame ++ duplicate_pair ++ [newer_row])
  = process_data stable_sort Qsqrt6 (sample_frame ++ [newer_row]).
Proof.
  assert (H : forall r, In r duplicate_pair -> key_occurs sample_frame r)
    by (intros r [<-|[<-|[]]]; right; left; reflexivity).
  split; [exact H|].
  exact (process_data_ignores_known_keys stable_sort Qsqrt6 sample_frame
           duplicate_pair [newer_row] H).
Defined.

Lemma process_data_again_witness :
  sorts_by_date stable_sort /\
  asset_frame stable_sort Qsqrt6
    (map base (process_data stable_sort Qsqrt6 sample_frame)) "bitcoin"
  = sample_bitcoin.
Proof.
  split; [exact stable_sort_sorts|].
  exact (process_data_again stable_sort Qsqrt6 stable_sort_sorts sample_frame
           "bitcoin").
Defined.

Lemma moving_averages_agree_at_start_witness :
  nth_error sample_ethereum 3 = Some (nth 3 sample_ethereum no_row) /\
  ma_7 (nth 3 sample_ethereum no_row) = ma_30 (nth 3 sample_ethereum no_row).
Proof.
  assert (H3 : nth_error (asset_frame stable_sort Qsqrt6 sample_frame "ethereum") 3
               = Some (nth 3 sample_ethereum no_row)) by by_running.
  split; [exact H3|].
  refine (proj1 (moving_averages_agree_at_start stable_sort Qsqrt6 sample_frame
                   "ethereum" 3 (nth 3 sample_ethereum no_row) H3 _)).
  lia.
Defined.

Lemma no_look_ahead_witness :
  sorts_by_date stable_sort /\
  (forall x, In x sample_frame -> coin x = coin newer_row ->
     (date x < date newer_row)%Z) /\
  firstn (length sample_bitcoin)
    (asset_frame stable_sort Qsqrt6 (sample_frame ++ [newer_row]) "bitcoin")
  = sample_bitcoin.
Proof.
  assert (H : forall x, In x sample_frame -> coin x = coin newer_row ->
                (date x < date newer_row)%Z).
  { intros x Hx Hc; unfold sample_frame in Hx; cbn [In] in Hx.
    repeat (destruct Hx as [<-|Hx]; [first [discriminate Hc|reflexivity]|]).
    contradiction. }
  split; [exact stable_sort_sorts|split; [exact H|]].
  exact (proj1 (proj2 (no_look_ahead stable_sort Qsqrt6 stable_sort_sorts sample_frame
                         newer_row H))).
Defined.

Lemma fetch_historical_data_frame_witness :
  fetch_historical_data two_asset_api "ethereum"
  = Returned (Some (payload_rows "ethereum" [(1%Z, 10%Q); (2%Z, 11%Q)]
                      [(1%Z, 3%Q); (2%Z, 4%Q)] [(1%Z, 1%Q); (2%Z, 2%Q)])) /\
  exists p v m,
    two_asset_api "ethereum" = Payload p v m /\
    map date (payload_rows "ethereum" [(1%Z, 10%Q); (2%Z, 11%Q)]
                [(1%Z, 3%Q); (2%Z, 4%Q)] [(1%Z, 1%Q); (2%Z, 2%Q)]) = map fst p.
Proof.
  assert (H : fetch_historical_data two_asset_api "ethereum"
              = Returned (Some (payload_rows "ethereum" [(1%Z, 10%Q); (2%Z, 11%Q)]
                                  [(1%Z, 3%Q); (2%Z, 4%Q)] [(1%Z, 1%Q); (2%Z, 2%Q)])))
    by by_running.
  split; [exact H|].
  destruct (fetch_historical_data_frame two_asset_api "ethereum" _ H)
    as (p & v & m & Ha & Hd & _).
  exists p, v, m; split; assumption.
Defined.

Lemma run_pipeline_none_iff_witness :
  run_pipeline stable_sort Qsqrt6 (fun _ => failing_api) ["bitcoin"; "ethereum"]%string
  = Returned None /\
  forall n c, requested ["bitcoin"; "ethereum"]%string n c -> fetch_fails failing_api c.
Proof.
  assert (H : run_pipeline stable_sort Qsqrt6 (fun _ => failing_api)
                ["bitcoin"; "ethereum"]%string = Returned None) by by_running.
  split; [exact H|].
  exact (proj1 (run_pipeline_none_iff stable_sort Qsqrt6 (fun _ => failing_api)
                  ["bitcoin"; "ethereum"]%string) H).
Defined.

Lemma run_pipeline_rows_origin_witness :
  sorts_by_date stable_sort /\
  run_pipeline stable_sort Qsqrt6 (fun _ => two_asset_api)
    ["bitcoin"; "ethereum"; "dogecoin"]%string
  = Returned (Some two_asset_table) /\
  In (nth 1 two_asset_table no_row) two_asset_table /\
  In (coin (base (nth 1 two_asset_table no_row)))
     ["bitcoin"; "ethereum"; "dogecoin"]%string.
Proof.
  assert (Hrun : run_pipeline stable_sort Qsqrt6 (fun _ => two_asset_api)
                   ["bitcoin"; "ethereum"; "dogecoin"]%string
                 = Returned (Some two_asset_table)) by by_running.
  assert (Hin : In (nth 1 two_asset_table no_row) two_asset_table)
    by (vm_compute; right; left; reflexivity).
  split; [exact stable_sort_sorts|split; [exact Hrun|split; [exact Hin|]]].
  exact (proj1 (run_pipeline_rows_origin stable_sort Qsqrt6 (fun _ => two_asset_api)
                  ["bitcoin"; "ethereum"; "dogecoin"]%string two_asset_table
                  (nth 1 two_asset_table no_row) stable_sort_sorts Hrun Hin)).
Defined.

Lemma two_asset_api_timestamps (n : nat) c p v m :
  requested ["bitcoin"; "ethereum"; "dogecoin"]%string n c ->
  two_asset_api c = Payload p v m -> NoDup (map fst p).
Proof.
  intros Hc E; apply nth_error_In in Hc.
  destruct Hc as [<-|[<-|[<-|[]]]]; vm_compute in E; inversion E; subst;
    repeat constructor; simpl; intuition discriminate.
Qed.

Lemma run_pipeline_keeps_all_records_witness :
  sorts_by_date stable_sort /\
  NoDup ["bitcoin"; "ethereum"; "dogecoin"]%string /\
  run_pipeline stable_sort Qsqrt6 (fun _ => two_asset_api)
    ["bitcoin"; "ethereum"; "dogecoin"]%string
  = Returned (Some two_asset_table) /\
  Permutation
    (concat (fetched_frames (fun _ => two_asset_api)
               ["bitcoin"; "ethereum"; "dogecoin"]%string))
    (map base two_asset_table).
Proof.
  assert (ND : NoDup ["bitcoin"; "ethereum"; "dogecoin"]%string)
    by (repeat constructor; simpl; intuition discriminate).
  assert (Hrun : run_pipeline stable_sort Qsqrt6 (fun _ => two_asset_api)
                   ["bitcoin"; "ethereum"; "dogecoin"]%string
                 = Returned (Some two_asset_table)) by by_running.
  split; [exact stable_sort_sorts|split; [exact ND|split; [exact Hrun|]]].
  exact (run_pipeline_keeps_all_records stable_sort Qsqrt6 (fun _ => two_asset_api)
           ["bitcoin"; "ethereum"; "dogecoin"]%string two_asset_table
           stable_sort_sorts ND two_asset_api_timestamps Hrun).
Defined.

(** Ethereum asked for twice, with a second answer that goes on where the
    first stopped: its rows in the returned frame are those of the two
    answers put together, and the return of the third row is taken on the
    last price of the first answer. *)
Lemma run_pipeline_per_asset_witness :
  sorts_by_date stable_sort /\
  run_pipeline stable_sort Qsqrt6 growing_api ["ethereum"; "bitcoin"; "ethereum"]%string
  = Returned (Some growing_table) /\
  asset_rows "ethereum" growing_table
  = process_data stable_sort Qsqrt6
      (concat (fetched_frames (only_asset "ethereum" growing_api)
                 ["ethereum"; "bitcoin"; "ethereum"]%string)) /\
  map (fun fr => (date (base fr), price (base fr))) (asset_rows "ethereum" growing_table)
  = [(1%Z, 10%Q); (2%Z, 11%Q); (3%Z, 12%Q)] /\
  run_pipeline stable_sort Qsqrt6 (fun _ => two_asset_api)
    ["bitcoin"; "ethereum"; "dogecoin"]%string
  = Returned (Some two_asset_table) /\
  asset_rows "ethereum" two_asset_table
  = process_data stable_sort Qsqrt6
      (payload_rows "ethereum" [(1%Z, 10%Q); (2%Z, 11%Q)]
         [(1%Z, 3%Q); (2%Z, 4%Q)] [(1%Z, 1%Q); (2%Z, 2%Q)]).
Proof.
  assert (Hgrow : run_pipeline stable_sort Qsqrt6 growing_api
                    ["ethereum"; "bitcoin"; "ethereum"]%string
                  = Returned (Some growing_table)) by by_running.
  assert (Hrun : run_pipeline stable_sort Qsqrt6 (fun _ => two_asset_api)
                   ["bitcoin"; "ethereum"; "dogecoin"]%string
                 = Returned (Some two_asset_table)) by by_running.
  assert (ND : NoDup ["bitcoin"; "ethereum"; "dogecoin"]%string)
    by (repeat constructor; simpl; intuition discriminate).
  split; [exact stable_sort_sorts|split; [exact Hgrow|split; [|split]]].
  - exact (proj1 (run_pipeline_per_asset stable_sort Qsqrt6 growing_api
                    ["ethereum"; "bitcoin"; "ethereum"]%string growing_table "ethereum"
                    stable_sort_sorts Hgrow)).
  - by_running.
  - split; [exact Hrun|].
    refine (proj2 (run_pipeline_per_asset stable_sort Qsqrt6 (fun _ => two_asset_api)
                     ["bitcoin"; "ethereum"; "dogecoin"]%string two_asset_table
                     "ethereum" stable_sort_sorts Hrun) 1 _ _ _ ND _ _);
      reflexivity.
Defined.
